(** * Resource detection and merge engine

    A shallow embedding of
    [processor/resourcedetectionprocessor/internal/resourcedetection.go]:
    the detector registry ([getDetectors], [CreateResourceProvider]), the
    memoising [ResourceProvider] ([Get], [detectResource]), the merge
    primitives ([MergeSchemaURL], [MergeResource], [filterAttributes]) and the
    conversion of attribute values to plain Go values ([UnwrapAttribute],
    [getSerializableArray], [AttributesToMap]).

    The Go packages the file imports ([pcommon], [context], [net/http],
    [zap]) are modelled by the small part of their behaviour the file uses. *)

From Stdlib Require Import ZArith String List.
From stdpp Require Import base option list gmap sets strings.

Set Warnings "-register-all,-clear-no-such-hyp".
Set Default Proof Using "Type".

Local Open Scope Z_scope.

(** ** Go values *)

(** A Go slice is either [nil] or a (possibly empty) backing sequence.  The
    two are kept apart where the source declares [var s []T] and appends to
    it, because a slice that was never appended to stays [nil]. *)
Abbreviation slice A := (option (list A)).

Definition nil_slice {A} : slice A := None.

(** [len(s)]: a nil slice has length zero. *)
Definition slice_elems {A} (s : slice A) : list A := default [] s.

(** [append(s, x)]: always yields a non-nil slice. *)
Definition append {A} (s : slice A) (x : A) : slice A :=
  Some (slice_elems s ++ [x]).

(** [int64], and [float64] by its IEEE-754 bit pattern ([math.Float64bits]):
    the code only moves these numbers around, it never computes with them. *)
Definition int64 := Z.
Definition float64 := Z.

(** The dynamic values that [UnwrapAttribute] stores in an [interface{}]:
    the nil interface, the four scalars, [[]interface{}] and
    [map[string]interface{}].  An interface holding a nil slice
    ([ISlice None]) is not the nil interface ([INil]). *)
Inductive iface : Type :=
  | INil
  | IBool (b : bool)
  | IInt (i : int64)
  | IDouble (d : float64)
  | IStr (s : string)
  | ISlice (a : slice iface)
  | IMap (m : gmap string iface).

(** ** [pcommon]: attribute values, maps and resources *)

Module pcommon.

(** [pcommon.Value]: the closed set of value kinds of pdata.  A
    [pcommon.Map] is a sequence of key/value pairs (pdata stores it as a
    slice of [KeyValue]); a [pcommon.Slice] is a sequence of values. *)
Inductive Value : Type :=
  | ValueEmpty
  | ValueStr (s : string)
  | ValueInt (i : int64)
  | ValueDouble (d : float64)
  | ValueBool (b : bool)
  | ValueMap (m : list (string * Value))
  | ValueSlice (l : list Value)
  | ValueBytes (bs : list Byte.byte).

Abbreviation Map := (list (string * Value)).
Abbreviation Slice := (list Value).

Inductive ValueType : Type :=
  | ValueTypeEmpty | ValueTypeStr | ValueTypeInt | ValueTypeDouble
  | ValueTypeBool | ValueTypeMap | ValueTypeSlice | ValueTypeBytes.

Definition Type_ (v : Value) : ValueType :=
  match v with
  | ValueEmpty => ValueTypeEmpty
  | ValueStr _ => ValueTypeStr
  | ValueInt _ => ValueTypeInt
  | ValueDouble _ => ValueTypeDouble
  | ValueBool _ => ValueTypeBool
  | ValueMap _ => ValueTypeMap
  | ValueSlice _ => ValueTypeSlice
  | ValueBytes _ => ValueTypeBytes
  end.

(** [Map.Len]. *)
Definition Len (m : Map) : Z := Z.of_nat (length m).

(** [Map.Get]: linear scan, the first entry with the key. *)
Fixpoint Get (m : Map) (k : string) : option Value :=
  match m with
  | [] => None
  | (k', v) :: m' => if decide (k' = k) then Some v else Get m' k
  end.

(** Position of the first entry with the key, the slot [Get] reads. *)
Fixpoint index (m : Map) (k : string) : option nat :=
  match m with
  | [] => None
  | (k', _) :: m' => if decide (k' = k) then Some 0%nat else S <$> index m' k
  end.

(** [Map.PutEmpty]: when the key exists its value is reset to empty and
    that slot is returned; otherwise an empty entry is appended and the new
    slot is returned.  The slot is returned as its position. *)
Definition PutEmpty (m : Map) (k : string) : Map * nat :=
  match index m k with
  | Some i => (<[i := (k, ValueEmpty)]> m, i)
  | None => (m ++ [(k, ValueEmpty)], length m)
  end.

(** [v.CopyTo(dest)] where [dest] is the slot at position [i] of [m]: the
    slot's value becomes a deep copy of [v], its key stays. *)
Definition CopyTo (v : Value) (m : Map) (i : nat) : Map :=
  match m !! i with
  | Some (k, _) => <[i := (k, v)]> m
  | None => m
  end.

(** [Map.Range]: calls [f] on every entry in order until [f] returns
    false.  [s] is the state the closure captures and updates. *)
Fixpoint Range {S : Type} (f : string -> Value -> S -> bool * S)
    (m : Map) (s : S) : S :=
  match m with
  | [] => s
  | (k, v) :: m' =>
      let '(continue, s') := f k v s in
      if continue then Range f m' s' else s'
  end.

(** [Map.RemoveIf]: calls [f] on every entry in order and keeps, in order,
    the entries for which it returned false. *)
Fixpoint RemoveIf {S : Type} (f : string -> Value -> S -> bool * S)
    (m : Map) (s : S) : Map * S :=
  match m with
  | [] => ([], s)
  | (k, v) :: m' =>
      let '(remove, s') := f k v s in
      let '(kept, s'') := RemoveIf f m' s' in
      (if remove then kept else (k, v) :: kept, s'')
  end.

(** [pcommon.Resource]: its attributes. *)
Record Resource : Type := mkResource { Attributes : Map }.

Definition NewResource : Resource := mkResource [].

End pcommon.

Import pcommon.

(** ** Conversion to plain values *)

(** [UnwrapAttribute], with [getSerializableArray] and [AttributesToMap]
    inlined where they recurse (they are stated separately below).  The
    [switch v.Type()] followed by the matching accessor is the pattern
    match; [default] covers [ValueTypeEmpty] and [ValueTypeBytes]. *)
Fixpoint UnwrapAttribute (v : Value) : iface :=
  match v with
  | ValueBool b => IBool b
  | ValueInt i => IInt i
  | ValueDouble d => IDouble d
  | ValueStr s => IStr s
  | ValueSlice inArr =>
      ISlice (fold_left (fun outArr x => append outArr (UnwrapAttribute x))
                inArr nil_slice)
  | ValueMap am =>
      IMap (Range (fun k v mp => (true, <[k := UnwrapAttribute v]> mp)) am ∅)
  | ValueEmpty | ValueBytes _ => INil
  end.

(** [getSerializableArray]: [var outArr []interface{}], then one [append]
    per element, index 0 upwards. *)
Definition getSerializableArray (inArr : Slice) : slice iface :=
  fold_left (fun outArr x => append outArr (UnwrapAttribute x)) inArr nil_slice.

(** [AttributesToMap]: a fresh Go map, [mp[k] = UnwrapAttribute(v)] for every
    entry in range order. *)
Definition AttributesToMap (am : Map) : gmap string iface :=
  Range (fun k v mp => (true, <[k := UnwrapAttribute v]> mp)) am ∅.

(** ** Merge primitives *)

Definition MergeSchemaURL (currentSchemaURL newSchemaURL : string) : string :=
  if decide (currentSchemaURL = EmptyString) then newSchemaURL
  else if decide (newSchemaURL = EmptyString) then currentSchemaURL
  else if decide (currentSchemaURL = newSchemaURL) then currentSchemaURL
  else currentSchemaURL.

Definition IsEmptyResource (res : Resource) : bool :=
  bool_decide (Len (Attributes res) = 0).

(** [v.CopyTo(toAttr.PutEmpty(k))]. *)
Definition put (toAttr : Map) (k : string) (v : Value) : Map :=
  let '(toAttr', slot) := PutEmpty toAttr k in CopyTo v toAttr' slot.

(** The closure [MergeResource] passes to [Range]; the captured state is
    [toAttr]. *)
Definition mergeEntry (overrideTo : bool) (k : string) (v : Value)
    (toAttr : Map) : bool * Map :=
  if overrideTo then (true, put toAttr k v)
  else
    match Get toAttr k with
    | Some _ => (true, toAttr)
    | None => (true, put toAttr k v)
    end.

(** [MergeResource(to, from, overrideTo)]; the result is [to] after the
    call.  [to] and [from] are distinct resources. *)
Definition MergeResource (to from : Resource) (overrideTo : bool) : Resource :=
  if IsEmptyResource from then to
  else
    let toAttr := Attributes to in
    mkResource (Range (mergeEntry overrideTo) (Attributes from) toAttr).

(** The closure [filterAttributes] passes to [RemoveIf]; the captured state
    is [droppedAttributes]. *)
Definition dropEntry (attributesToKeep : gset string) (k : string)
    (v : Value) (droppedAttributes : slice string) : bool * slice string :=
  let keep := bool_decide (k ∈ attributesToKeep) in
  (negb keep,
   if negb keep then append droppedAttributes k else droppedAttributes).

(** [filterAttributes(am, attributesToKeep)]: the returned slice and [am]
    after the call.  [map[string]struct{}] is a set of strings. *)
Definition filterAttributes (am : Map) (attributesToKeep : gset string)
    : slice string * Map :=
  if bool_decide (0 < Z.of_nat (size attributesToKeep)) then
    let '(am', droppedAttributes) :=
      RemoveIf (dropEntry attributesToKeep) am nil_slice in
    (droppedAttributes, am')
  else (nil_slice, am).

(** ** Errors, contexts, clients, logging *)

(** [type DetectorType string]. *)
Abbreviation DetectorType := string (only parsing).

(** Go [error] values: the two that [getDetectors] builds with
    [fmt.Errorf], and the errors detectors and factories come back with. *)
Inductive error : Type :=
  | errorString (msg : string)
  | invalidDetectorKey (detectorType : DetectorType)
  | failedCreatingDetector (detectorType : DetectorType) (cause : error).

(** A Go call returning [(value, err)] where the value is only read when
    [err == nil]. *)
Inductive result (A : Type) : Type :=
  | Ok (a : A)
  | Err (err : error).
Arguments Ok {A} a.
Arguments Err {A} err.

Module context.

(** [context.Context], by its deadline (absolute time in nanoseconds),
    absent when the context has none. *)
Record Context : Type := mkContext { Deadline : option Z }.

Definition Background : Context := mkContext None.

(** [context.WithTimeout(parent, timeout)] called at time [now]: the
    deadline is [now + timeout] unless the parent's deadline is earlier. *)
Definition WithTimeout (now : Z) (parent : Context) (timeout : Z) : Context :=
  let d := now + timeout in
  match Deadline parent with
  | Some cur => if cur <? d then parent else mkContext (Some d)
  | None => mkContext (Some d)
  end.

End context.

Module http.

(** [http.Client]: the field [Get] reads. *)
Record Client : Type := mkClient { Timeout : Z }.

End http.

Module zap.

Inductive Field : Type :=
  | Error (err : error)
  | Any (key : string) (value : iface)
  | Strings (key : string) (ss : list string).

Inductive Level : Type := InfoLevel | WarnLevel.

#[global] Instance Level_eq_dec : EqDecision Level.
Proof. solve_decision. Defined.

End zap.

(** ** Detectors, the factory registry and the provider *)

Section Engine.

(** [World] is everything outside the program that detectors and their
    constructors read and change (cloud metadata endpoints, the host, the
    clock); [Now] reads the clock ([time.Now], in nanoseconds).
    [DetectorConfig] is the opaque per-detector configuration and [Logger]
    stands for [*zap.Logger]. *)
Context {World : Type} (Now : World -> Z).
Context {DetectorConfig : Type} {Logger : Type}.

(** One record written through a logger. *)
Record LogEntry : Type := mkLogEntry {
  entry_logger : Logger;
  entry_level : zap.Level;
  entry_msg : string;
  entry_fields : list zap.Field;
}.

(** The state the program runs in: the outside world and the records
    logged so far, oldest first. *)
Record Env : Type := mkEnv {
  world : World;
  logs : list LogEntry;
}.

Definition Info (logger : Logger) (msg : string) (fields : list zap.Field)
    (env : Env) : Env :=
  mkEnv (world env) (logs env ++ [mkLogEntry logger zap.InfoLevel msg fields]).

Definition Warn (logger : Logger) (msg : string) (fields : list zap.Field)
    (env : Env) : Env :=
  mkEnv (world env) (logs env ++ [mkLogEntry logger zap.WarnLevel msg fields]).

(** [type Detector interface { Detect(ctx) (resource, schemaURL, err) }]:
    the three results as Go returns them, [err] being nil or an error. *)
Record Detector : Type := mkDetector {
  Detect : context.Context -> World
           -> (Resource * string * option error) * World;
}.

(** [type ResourceDetectorConfig interface]. *)
Record ResourceDetectorConfig : Type := mkResourceDetectorConfig {
  GetConfigFromType : DetectorType -> DetectorConfig;
}.

(** [component.ProcessorCreateSettings]: the field the file reads. *)
Record ProcessorCreateSettings : Type := mkProcessorCreateSettings {
  settings_Logger : Logger;
}.

Definition DetectorFactory : Type :=
  ProcessorCreateSettings -> DetectorConfig -> World -> result Detector * World.

Record ResourceProviderFactory : Type := mkResourceProviderFactory {
  factory_detectors : gmap DetectorType DetectorFactory;
}.

Definition NewProviderFactory (detectors : gmap DetectorType DetectorFactory)
    : ResourceProviderFactory :=
  mkResourceProviderFactory detectors.

Record resourceResult : Type := mkResourceResult {
  resource : Resource;
  schemaURL : string;
  err : option error;
}.

(** [&resourceResult{}]: every field at its zero value. *)
Definition zeroResourceResult : resourceResult :=
  mkResourceResult (mkResource []) EmptyString None.

(** [once] is the done flag of the [sync.Once]; [detectedResource] is a
    pointer, nil until [detectResource] stores one. *)
Record ResourceProvider : Type := mkResourceProvider {
  logger : Logger;
  timeout : Z;
  detectors : list Detector;
  detectedResource : option resourceResult;
  once : bool;
  attributesToKeep : gset string;
}.

Definition NewResourceProvider (logger : Logger) (timeout : Z)
    (attributesToKeep : gset string) (detectors : list Detector)
    : ResourceProvider :=
  mkResourceProvider logger timeout detectors None false attributesToKeep.

Definition set_detectedResource (p : ResourceProvider)
    (r : option resourceResult) : ResourceProvider :=
  mkResourceProvider (logger p) (timeout p) (detectors p) r (once p)
    (attributesToKeep p).

Definition set_once (p : ResourceProvider) (done : bool) : ResourceProvider :=
  mkResourceProvider (logger p) (timeout p) (detectors p)
    (detectedResource p) done (attributesToKeep p).

(** The loop of [getDetectors]; [detectors] is the slice built so far. *)
Fixpoint getDetectors_loop (f : ResourceProviderFactory)
    (params : ProcessorCreateSettings)
    (detectorConfigs : ResourceDetectorConfig)
    (detectorTypes : list DetectorType) (detectors : list Detector)
    (w : World) : result (list Detector) * World :=
  match detectorTypes with
  | [] => (Ok detectors, w)
  | detectorType :: rest =>
      match factory_detectors f !! detectorType with
      | None => (Err (invalidDetectorKey detectorType), w)
      | Some detectorFactory =>
          match detectorFactory params
                  (GetConfigFromType detectorConfigs detectorType) w with
          | (Err err, w') =>
              (Err (failedCreatingDetector detectorType err), w')
          | (Ok detector, w') =>
              getDetectors_loop f params detectorConfigs rest
                (detectors ++ [detector]) w'
          end
      end
  end.

Definition getDetectors (f : ResourceProviderFactory)
    (params : ProcessorCreateSettings)
    (detectorConfigs : ResourceDetectorConfig)
    (detectorTypes : list DetectorType) (w : World)
    : result (list Detector) * World :=
  getDetectors_loop f params detectorConfigs detectorTypes [] w.

Definition CreateResourceProvider (f : ResourceProviderFactory)
    (params : ProcessorCreateSettings) (timeout : Z)
    (attributes : list string) (detectorConfigs : ResourceDetectorConfig)
    (detectorTypes : list DetectorType) (w : World)
    : result ResourceProvider * World :=
  match getDetectors f params detectorConfigs detectorTypes w with
  | (Err err, w') => (Err err, w')
  | (Ok detectors, w') =>
      let attributesToKeep : gset string :=
        if bool_decide (0 < Z.of_nat (length attributes)) then
          fold_left (fun keep attribute => {[attribute]} ∪ keep) attributes ∅
        else ∅ in
      (Ok (NewResourceProvider (settings_Logger params) timeout
             attributesToKeep detectors), w')
  end.

(** One iteration of the detector loop of [detectResource]; the loop
    state is [(res, mergedSchemaURL)] and the environment. *)
Definition detectStep (p : ResourceProvider) (ctx : context.Context)
    (st : Resource * string * Env) (detector : Detector)
    : Resource * string * Env :=
  let '(res, mergedSchemaURL, env) := st in
  let '(out, w) := Detect detector ctx (world env) in
  let env := mkEnv w (logs env) in
  let '(r, schemaURL, err) := out in
  match err with
  | Some err =>
      (res, mergedSchemaURL,
       Warn (logger p) "failed to detect resource" [zap.Error err] env)
  | None =>
      (MergeResource res r false, MergeSchemaURL mergedSchemaURL schemaURL,
       env)
  end.

Definition detectResource (p : ResourceProvider) (ctx : context.Context)
    (env : Env) : ResourceProvider * Env :=
  let p := set_detectedResource p (Some zeroResourceResult) in
  let res := NewResource in
  let mergedSchemaURL := EmptyString in
  let env := Info (logger p) "began detecting resource information" [] env in
  let '(res, mergedSchemaURL, env) :=
    fold_left (detectStep p ctx) (detectors p) (res, mergedSchemaURL, env) in
  let '(droppedAttributes, attrs) :=
    filterAttributes (Attributes res) (attributesToKeep p) in
  let res := mkResource attrs in
  let env :=
    Info (logger p) "detected resource information"
      [zap.Any "resource" (IMap (AttributesToMap (Attributes res)))] env in
  let env :=
    if bool_decide (0 < Z.of_nat (length (slice_elems droppedAttributes)))
    then Info (logger p) "dropped resource information"
           [zap.Strings "resource keys" (slice_elems droppedAttributes)] env
    else env in
  let cell := default zeroResourceResult (detectedResource p) in
  (set_detectedResource p
     (Some (mkResourceResult res mergedSchemaURL (err cell))), env).

(** [p.once.Do(f)]: [f] runs when the gate is open, and the gate is shut
    when [f] has returned. *)
Definition onceDo (p : ResourceProvider)
    (f : ResourceProvider -> Env -> ResourceProvider * Env) (env : Env)
    : ResourceProvider * Env :=
  if once p then (p, env)
  else let '(p', env') := f p env in (set_once p' true, env').

(** [Get]: the returned triple, or [None] when the read of
    [p.detectedResource] dereferences a nil pointer; then the provider
    and the environment after the call. *)
Definition Get (p : ResourceProvider) (ctx : context.Context)
    (client : http.Client) (env : Env)
    : option (Resource * string * option error) * ResourceProvider * Env :=
  let '(p, env) :=
    onceDo p (fun p env =>
      let ctx := context.WithTimeout (Now (world env)) ctx
                   (http.Timeout client) in
      detectResource p ctx env) env in
  (match detectedResource p with
   | Some r => Some (resource r, schemaURL r, err r)
   | None => None
   end, p, env).

End Engine.

(** ** Functions used to state the properties *)

(** Write-or-append on a key/value sequence: the first entry with the key
    gets the value, or a new entry is added at the end. *)
Fixpoint upsert (m : Map) (k : string) (v : Value) : Map :=
  match m with
  | [] => [(k, v)]
  | (k', v') :: m' =>
      if decide (k' = k) then (k, v) :: m' else (k', v') :: upsert m' k v
  end.

(** The last entry with the key. *)
Fixpoint GetLast (m : Map) (k : string) : option Value :=
  match m with
  | [] => None
  | (k', v) :: m' =>
      match GetLast m' k with
      | Some v' => Some v'
      | None => if decide (k' = k) then Some v else None
      end
  end.

(** The value the first resource that has the key holds for it. *)
Fixpoint firstValue (rs : list (Resource * string)) (k : string)
    : option Value :=
  match rs with
  | [] => None
  | x :: rs' =>
      match pcommon.Get (Attributes x.1) k with
      | Some v => Some v
      | None => firstValue rs' k
      end
  end.

(** The keys of a map in iteration order. *)
Definition keys (m : Map) : list string := m.*1.

(** One step into a nested value: an array index or a map key. *)
Inductive step : Type :=
  | AtIndex (i : nat)
  | AtKey (k : string).

(** Follow a path into an attribute value; a map key selects the entry a
    Go map built in range order ends up with, the last one. *)
Fixpoint descend (path : list step) (v : Value) : option Value :=
  match path with
  | [] => Some v
  | AtIndex i :: path' =>
      match v with
      | ValueSlice l => l !! i ≫= descend path'
      | _ => None
      end
  | AtKey k :: path' =>
      match v with
      | ValueMap m => GetLast m k ≫= descend path'
      | _ => None
      end
  end.

(** Follow a path into a plain value. *)
Fixpoint idescend (path : list step) (x : iface) : option iface :=
  match path with
  | [] => Some x
  | AtIndex i :: path' =>
      match x with
      | ISlice a => slice_elems a !! i ≫= idescend path'
      | _ => None
      end
  | AtKey k :: path' =>
      match x with
      | IMap m => m !! k ≫= idescend path'
      | _ => None
      end
  end.

(** The scalar kinds [UnwrapAttribute] has a case for. *)
Definition scalar (v : Value) : bool :=
  match v with
  | ValueBool _ | ValueInt _ | ValueDouble _ | ValueStr _ => true
  | _ => false
  end.

Section EngineSpec.

Context {World : Type} (Now : World -> Z) {Logger : Type}.

(** Call [Detect] on every detector in order, threading the world, and
    collect what each returned. *)
Fixpoint detectAll (ctx : context.Context) (ds : list (@Detector World))
    (w : World) : list (Resource * string * option error) * World :=
  match ds with
  | [] => ([], w)
  | d :: ds' =>
      let '(out, w') := Detect d ctx w in
      let '(outs, w'') := detectAll ctx ds' w' in
      (out :: outs, w'')
  end.

(** The results of the detectors that succeeded (nil error), in order. *)
Definition successes (outs : list (Resource * string * option error))
    : list (Resource * string) :=
  omap (fun out => match out.2 with None => Some out.1 | Some _ => None end)
    outs.

(** The errors of the detectors that failed, in order. *)
Definition failures (outs : list (Resource * string * option error))
    : list error :=
  omap (fun out => out.2) outs.

(** Merge detector results left to right into an empty resource, never
    overriding. *)
Definition mergeAll (rs : list (Resource * string)) : Resource :=
  fold_left (fun acc x => MergeResource acc x.1 false) rs NewResource.

Definition mergeAllSchemaURLs (rs : list (Resource * string)) : string :=
  fold_left (fun acc x => MergeSchemaURL acc x.2) rs EmptyString.

(** A sequence of [Get] calls on one provider, one after the other. *)
Fixpoint GetAll (calls : list (context.Context * http.Client))
    (p : @ResourceProvider World Logger) (env : @Env World Logger)
    : list (option (Resource * string * option error))
      * ResourceProvider * Env :=
  match calls with
  | [] => ([], p, env)
  | (ctx, client) :: rest =>
      let '(r, p', env') := Get Now p ctx client env in
      let '(rs, p'', env'') := GetAll rest p' env' in
      (r :: rs, p'', env'')
  end.

(** How often [detectResource] has started, read off the log: it logs
    this message first thing, and nothing else logs it. *)
Definition detection_passes (env : @Env World Logger) : nat :=
  length (filter
            (fun e => entry_msg e = "began detecting resource information"%string)
            (logs env)).

(** The warnings in the log. *)
Definition warnings (env : @Env World Logger) : list (@LogEntry Logger) :=
  filter (fun e => entry_level e = zap.WarnLevel) (logs env).

(** What one run of [detectResource] writes to the log: the start record,
    a warning for every failed detector, the merged and filtered
    attributes, and the dropped keys when there are any. *)
Definition detectionLog (lg : Logger) (errs : list error) (attrs : Map)
    (dropped : list string) : list (@LogEntry Logger) :=
  [mkLogEntry lg zap.InfoLevel "began detecting resource information" []]
  ++ ((fun e => mkLogEntry lg zap.WarnLevel "failed to detect resource"
                  [zap.Error e]) <$> errs)
  ++ [mkLogEntry lg zap.InfoLevel "detected resource information"
        [zap.Any "resource" (IMap (AttributesToMap attrs))]]
  ++ (if bool_decide (0 < Z.of_nat (length dropped))
      then [mkLogEntry lg zap.InfoLevel "dropped resource information"
              [zap.Strings "resource keys" dropped]]
      else []).

(** The triple [Get] hands out for a memoised result. *)
Definition triple (r : resourceResult)
    : Resource * string * option error :=
  (resource r, schemaURL r, err r).

(** What a detection pass memoises, given what the detectors returned:
    the merge of the successful results with the attribute filter applied,
    the merged schema URL, and a nil error. *)
Definition detection (attributesToKeep : gset string)
    (outs : list (Resource * string * option error)) : resourceResult :=
  mkResourceResult
    (mkResource
       (filterAttributes (Attributes (mergeAll (successes outs)))
          attributesToKeep).2)
    (mergeAllSchemaURLs (successes outs))
    None.

(** The keys that pass drops. *)
Definition droppedKeys (attributesToKeep : gset string)
    (outs : list (Resource * string * option error)) : list string :=
  slice_elems
    (filterAttributes (Attributes (mergeAll (successes outs)))
       attributesToKeep).1.

End EngineSpec.

(** ** A concrete setting

    The world is the list of contexts detectors have been called with, in
    call order; the clock stands at 100. *)
Module Scenario.

Definition World : Type := list context.Context.

Definition Now (w : World) : Z := 100.

(** A detector that succeeds with fixed attributes and schema URL. *)
Definition constant (attrs : Map) (schemaURL : string) : @Detector World :=
  mkDetector (fun ctx w => ((mkResource attrs, schemaURL, None), w ++ [ctx])).

(** A detector that always fails, and returns what it had found so far
    next to the error. *)
Definition failing (msg : string) : @Detector World :=
  mkDetector (fun ctx w =>
    ((mkResource [("k"%string, ValueStr "partial")], "v0"%string,
      Some (errorString msg)), w ++ [ctx])).

Definition env0 : @Env World unit := mkEnv [] [].

Definition D1 : Detector := constant [("k"%string, ValueStr "a")] "v1".
Definition D2 : Detector := constant [("k"%string, ValueStr "b")] "v2".

(** Constructors for the registry: they leave a mark in the world (a
    context with the detector's number as deadline) when they run. *)
Definition makes (n : Z) (d : Detector) : @DetectorFactory World unit unit :=
  fun _ _ w => (Ok d, w ++ [context.mkContext (Some n)]).

Definition breaks (n : Z) (msg : string) : @DetectorFactory World unit unit :=
  fun _ _ w => (Err (errorString msg), w ++ [context.mkContext (Some n)]).

Definition registry : @ResourceProviderFactory World unit unit :=
  NewProviderFactory
    (<["one"%string := makes 1 D1]>
       (<["two"%string := makes 2 D2]>
          (<["bad"%string := breaks 3 "no metadata"]> ∅))).

Definition configs : @ResourceDetectorConfig unit :=
  mkResourceDetectorConfig (fun _ => tt).

Definition params : @ProcessorCreateSettings unit :=
  mkProcessorCreateSettings tt.

End Scenario.

(** ** Further functions used to state properties *)

(** The first non-empty string of a list, the empty string when there is
    none. *)
Fixpoint firstNonEmpty (urls : list string) : string :=
  match urls with
  | [] => EmptyString
  | url :: urls' =>
      if decide (url = EmptyString) then firstNonEmpty urls' else url
  end.

(** Values made of the four scalar kinds and arrays only, at any depth. *)
Fixpoint flatValue (v : Value) : bool :=
  match v with
  | ValueBool _ | ValueInt _ | ValueDouble _ | ValueStr _ => true
  | ValueSlice l => forallb flatValue l
  | ValueEmpty | ValueMap _ | ValueBytes _ => false
  end.

(** Induction on attribute values, with the hypothesis available for every
    element of an array and every value of a map. *)
Section ValueInduction.

Variable P : Value -> Prop.
Hypothesis Hempty : P ValueEmpty.
Hypothesis Hstr : forall s, P (ValueStr s).
Hypothesis Hint : forall i, P (ValueInt i).
Hypothesis Hdouble : forall d, P (ValueDouble d).
Hypothesis Hbool : forall b, P (ValueBool b).
Hypothesis Hmap : forall m, Forall (fun kv => P kv.2) m -> P (ValueMap m).
Hypothesis Hslice : forall l, Forall P l -> P (ValueSlice l).
Hypothesis Hbytes : forall bs, P (ValueBytes bs).

Fixpoint Value_nested_ind (v : Value) : P v :=
  match v with
  | ValueEmpty => Hempty
  | ValueStr s => Hstr s
  | ValueInt i => Hint i
  | ValueDouble d => Hdouble d
  | ValueBool b => Hbool b
  | ValueMap m =>
      Hmap m
        ((fix go (m : list (string * Value)) : Forall (fun kv => P kv.2) m :=
            match m with
            | [] => List.Forall_nil _
            | (k, x) :: m' =>
                @List.Forall_cons _ (fun kv => P kv.2) (k, x) m'
                  (Value_nested_ind x) (go m')
            end) m)
  | ValueSlice l =>
      Hslice l
        ((fix go (l : list Value) : Forall P l :=
            match l with
            | [] => List.Forall_nil _
            | x :: l' =>
                @List.Forall_cons _ P x l' (Value_nested_ind x) (go l')
            end) l)
  | ValueBytes bs => Hbytes bs
  end.

End ValueInduction.

Section Tracing.

Context {World : Type}.

(** A detector instrumented with a call log: it behaves as [d] on the
    world and appends its number [i] to the log each time it is called. *)
Definition traced (i : nat) (d : @Detector World)
    : @Detector (World * list nat) :=
  mkDetector (fun ctx wt =>
    let '(out, w') := Detect d ctx wt.1 in (out, (w', wt.2 ++ [i]))).

(** Every detector of a list instrumented with its position. *)
Definition tracedAll (ds : list (@Detector World))
    : list (@Detector (World * list nat)) :=
  imap traced ds.

End Tracing.


(** * Properties *)

(** ** [pcommon.Map]: reading after writing *)

Lemma index_None_Get (m : Map) (k : string) :
  index m k = None <-> pcommon.Get m k = None.
Proof.
  induction m as [|[k' v'] m IH]; simpl; [done|].
  case_decide; [split; discriminate|].
  rewrite <- IH. destruct (index m k); simpl; split; done.
Qed.

Lemma put_upsert (m : Map) (k : string) (v : Value) :
  put m k v = upsert m k v.
Proof.
  unfold put, PutEmpty, CopyTo.
  induction m as [|[k' v'] m IH]; simpl; [done|].
  case_decide as Hk; simpl; [by subst|].
  destruct (index m k) as [i|]; simpl in *.
  - destruct (<[i:=(k, ValueEmpty)]> m !! i) as [[k0 v0]|]; simpl;
      by rewrite <- IH.
  - destruct ((m ++ [(k, ValueEmpty)]) !! length m) as [[k0 v0]|]; simpl;
      by rewrite <- IH.
Qed.

Lemma Get_upsert (m : Map) (k k' : string) (v : Value) :
  pcommon.Get (upsert m k v) k' = if decide (k = k') then Some v else pcommon.Get m k'.
Proof.
  induction m as [|[k0 v0] m IH]; simpl.
  - repeat case_decide; congruence.
  - destruct (decide (k0 = k)) as [->|Hne]; simpl.
    + repeat case_decide; congruence.
    + rewrite IH. repeat case_decide; congruence.
Qed.

Lemma Get_put (m : Map) (k k' : string) (v : Value) :
  pcommon.Get (put m k v) k' = if decide (k = k') then Some v else pcommon.Get m k'.
Proof. rewrite put_upsert. apply Get_upsert. Qed.

Lemma keys_upsert (m : Map) (k : string) (v : Value) :
  keys (upsert m k v)
  = match pcommon.Get m k with Some _ => keys m | None => keys m ++ [k] end.
Proof.
  unfold keys. induction m as [|[k0 v0] m IH]; simpl; [done|].
  case_decide; simpl; [by subst|].
  fold (fmap (M:=list) (@fst string Value)). rewrite IH.
  by destruct (pcommon.Get m k).
Qed.

Lemma Range_fold {S : Type} (g : string -> Value -> S -> S) (m : Map) (s : S) :
  Range (fun k v s => (true, g k v s)) m s
  = fold_left (fun s kv => g kv.1 kv.2 s) m s.
Proof.
  revert s. induction m as [|[k v] m IH]; intros s; simpl; [done|]. apply IH.
Qed.

Lemma GetLast_app (m1 m2 : Map) (k : string) :
  GetLast (m1 ++ m2) k
  = match GetLast m2 k with Some v => Some v | None => GetLast m1 k end.
Proof.
  induction m1 as [|[k0 v0] m1 IH]; simpl.
  - by destruct (GetLast m2 k).
  - rewrite IH. by destruct (GetLast m2 k).
Qed.

Lemma GetLast_NoDup (m : Map) (k : string) :
  NoDup (keys m) -> GetLast m k = pcommon.Get m k.
Proof.
  unfold keys. induction m as [|[k0 v0] m IH]; simpl; [done|].
  intros Hnd. apply NoDup_cons in Hnd as [Hnotin Hnd].
  rewrite (IH Hnd). case_decide as Hk.
  - subst. destruct (pcommon.Get m k) as [v|] eqn:Hget; [|done].
    exfalso. apply Hnotin. clear -Hget.
    induction m as [|[k1 v1] m IH]; simpl in *; [done|].
    case_decide; [subst; left|right; auto].
  - by destruct (pcommon.Get m k).
Qed.

(** ** Schema URLs *)

(** C5. [MergeSchemaURL] returns the incoming URL when the current one is
    empty, the current one when the incoming one is empty, the current one
    when they are equal, and the current one when both are non-empty and
    differ: the first non-empty schema URL wins and stays. *)
Theorem MergeSchemaURL_sticky (current incoming : string) :
  MergeSchemaURL EmptyString incoming = incoming
  /\ MergeSchemaURL current EmptyString = current
  /\ MergeSchemaURL current current = current
  /\ (current <> EmptyString -> incoming <> EmptyString ->
      current <> incoming -> MergeSchemaURL current incoming = current)
  /\ MergeSchemaURL current incoming
     = (if decide (current = EmptyString) then incoming else current).
Proof.
  unfold MergeSchemaURL. repeat split.
  - repeat case_decide; congruence.
  - repeat case_decide; congruence.
  - intros. repeat case_decide; congruence.
  - repeat case_decide; congruence.
Qed.

Lemma MergeSchemaURL_sticky_witness :
  MergeSchemaURL "v1" "v2" = "v1"%string
  /\ MergeSchemaURL EmptyString "v2" = "v2"%string
  /\ MergeSchemaURL "v1" EmptyString = "v1"%string.
Proof.
  destruct (MergeSchemaURL_sticky "v1" "v2") as (H1 & _ & _ & H4 & _).
  destruct (MergeSchemaURL_sticky "v1" "v2") as (_ & H2 & _).
  split; [apply H4; discriminate|]. split; [exact H1 | exact H2].
Defined.

(** ** Merging resources *)

(** What one entry of [from] does to the attributes of [to]. *)
Lemma mergeEntry_upsert (overrideTo : bool) (k : string) (v : Value)
    (toAttr : Map) :
  mergeEntry overrideTo k v toAttr
  = (true,
     if overrideTo then upsert toAttr k v
     else match pcommon.Get toAttr k with
          | Some _ => toAttr
          | None => upsert toAttr k v
          end).
Proof.
  unfold mergeEntry. destruct overrideTo; rewrite ?put_upsert; [done|].
  destruct (pcommon.Get toAttr k); by rewrite ?put_upsert.
Qed.

Lemma merge_fold (overrideTo : bool) (from toAttr : Map) :
  Range (mergeEntry overrideTo) from toAttr
  = fold_left
      (fun toAttr kv =>
         if overrideTo then upsert toAttr kv.1 kv.2
         else match pcommon.Get toAttr kv.1 with
              | Some _ => toAttr
              | None => upsert toAttr kv.1 kv.2
              end) from toAttr.
Proof.
  revert toAttr. induction from as [|[k v] from IH]; intros toAttr; [done|].
  cbn [Range fold_left fst snd]. rewrite mergeEntry_upsert. apply IH.
Qed.

Lemma merge_override_Get (from toAttr : Map) (k : string) :
  pcommon.Get (Range (mergeEntry true) from toAttr) k
  = match GetLast from k with
    | Some v => Some v
    | None => pcommon.Get toAttr k
    end.
Proof.
  rewrite merge_fold. revert toAttr.
  induction from as [|[k0 v0] from IH]; intros toAttr; simpl; [done|].
  rewrite IH, Get_upsert. destruct (GetLast from k); [done|].
  by case_decide.
Qed.

Lemma merge_keep_Get (from toAttr : Map) (k : string) :
  pcommon.Get (Range (mergeEntry false) from toAttr) k
  = match pcommon.Get toAttr k with
    | Some v => Some v
    | None => pcommon.Get from k
    end.
Proof.
  rewrite merge_fold. revert toAttr.
  induction from as [|[k0 v0] from IH]; intros toAttr; simpl.
  - by destruct (pcommon.Get toAttr k).
  - rewrite IH. destruct (pcommon.Get toAttr k0) eqn:Hk0.
    + case_decide; [subst; by rewrite Hk0|done].
    + rewrite Get_upsert. case_decide; [subst; by rewrite Hk0|done].
Qed.

Lemma merge_keys_prefix (overrideTo : bool) (from toAttr : Map) :
  exists added, keys (Range (mergeEntry overrideTo) from toAttr)
                = keys toAttr ++ added.
Proof.
  rewrite merge_fold. revert toAttr.
  induction from as [|[k0 v0] from IH]; intros toAttr; simpl.
  - exists []. by rewrite app_nil_r.
  - assert (exists a, keys (upsert toAttr k0 v0) = keys toAttr ++ a) as [a Ha].
    { rewrite keys_upsert. destruct (pcommon.Get toAttr k0).
      - exists []. by rewrite app_nil_r.
      - by exists [k0]. }
    destruct overrideTo.
    + destruct (IH (upsert toAttr k0 v0)) as [b Hb].
      exists (a ++ b). by rewrite Hb, Ha, app_assoc.
    + destruct (pcommon.Get toAttr k0); [apply IH|].
      destruct (IH (upsert toAttr k0 v0)) as [b Hb].
      exists (a ++ b). by rewrite Hb, Ha, app_assoc.
Qed.

(** C6. [MergeResource(to, from, overrideTo)] leaves [to] as it is when
    [from] has no attributes.  Otherwise it goes through the entries of
    [from] in iteration order: with [overrideTo] every value is written
    into [to], replacing an existing entry in place; without it a value is
    written only when [to] has no entry for the key yet.  So with
    [overrideTo] a key ends up with the last value [from] has for it, and
    without it a key [to] already had keeps its value. *)
Theorem MergeResource_spec (to from : Resource) (overrideTo : bool) :
  (Len (Attributes from) = 0 -> MergeResource to from overrideTo = to)
  /\ Attributes (MergeResource to from overrideTo)
     = fold_left
         (fun toAttr kv =>
            if overrideTo then upsert toAttr kv.1 kv.2
            else match pcommon.Get toAttr kv.1 with
                 | Some _ => toAttr
                 | None => upsert toAttr kv.1 kv.2
                 end) (Attributes from) (Attributes to)
  /\ (forall k, overrideTo = true ->
        pcommon.Get (Attributes (MergeResource to from overrideTo)) k
        = match GetLast (Attributes from) k with
          | Some v => Some v
          | None => pcommon.Get (Attributes to) k
          end)
  /\ (forall k, overrideTo = false ->
        pcommon.Get (Attributes (MergeResource to from overrideTo)) k
        = match pcommon.Get (Attributes to) k with
          | Some v => Some v
          | None => pcommon.Get (Attributes from) k
          end)
  /\ (exists added,
        keys (Attributes (MergeResource to from overrideTo))
        = keys (Attributes to) ++ added).
Proof.
  unfold MergeResource, IsEmptyResource, Len.
  destruct from as [from], to as [to]; simpl.
  split; [intros H; by rewrite bool_decide_eq_true_2|].
  case_bool_decide as Hlen.
  - assert (from = []) as -> by (destruct from; [done|simpl in Hlen; lia]).
    simpl. repeat split.
    + intros k _. by destruct (pcommon.Get to k).
    + exists []. by rewrite app_nil_r.
  - simpl. split; [apply merge_fold|].
    split; [intros k ->; apply merge_override_Get|].
    split; [intros k ->; apply merge_keep_Get|].
    apply merge_keys_prefix.
Qed.

Lemma MergeResource_spec_witness :
  MergeResource (mkResource [("k", ValueStr "a")]) (mkResource []) true
  = mkResource [("k"%string, ValueStr "a")]
  /\ pcommon.Get
       (Attributes (MergeResource (mkResource [("k", ValueStr "a")])
                      (mkResource [("k", ValueStr "b")]) true)) "k"
     = Some (ValueStr "b")
  /\ pcommon.Get
       (Attributes (MergeResource (mkResource [("k", ValueStr "a")])
                      (mkResource [("k", ValueStr "b")]) false)) "k"
     = Some (ValueStr "a").
Proof.
  split.
  - apply (MergeResource_spec (mkResource [("k"%string, ValueStr "a")])
             (mkResource []) true). reflexivity.
  - split.
    + apply (MergeResource_spec (mkResource [("k"%string, ValueStr "a")])
               (mkResource [("k"%string, ValueStr "b")]) true). reflexivity.
    + apply (MergeResource_spec (mkResource [("k"%string, ValueStr "a")])
               (mkResource [("k"%string, ValueStr "b")]) false). reflexivity.
Defined.

(** ** Filtering attributes *)

Lemma RemoveIf_dropEntry (attributesToKeep : gset string) (am : Map)
    (dropped : slice string) :
  (RemoveIf (dropEntry attributesToKeep) am dropped).1
  = filter (fun kv => kv.1 ∈ attributesToKeep) am
  /\ slice_elems (RemoveIf (dropEntry attributesToKeep) am dropped).2
     = slice_elems dropped
       ++ filter (fun k => k ∉ attributesToKeep) (keys am).
Proof.
  unfold keys. revert dropped.
  induction am as [|[k v] am IH]; intros dropped.
  - simpl. by rewrite app_nil_r.
  - cbn [RemoveIf]. unfold dropEntry at 1 3.
    case_bool_decide as Hk; cbn [negb].
    + destruct (IH dropped) as [IH1 IH2].
      destruct (RemoveIf (dropEntry attributesToKeep) am dropped)
        as [kept s''] eqn:Hrec.
      simpl in *. rewrite filter_cons_True by done.
      rewrite (filter_cons_False _ k) by (intros ?; done).
      by rewrite IH1, IH2.
    + destruct (IH (append dropped k)) as [IH1 IH2].
      destruct (RemoveIf (dropEntry attributesToKeep) am (append dropped k))
        as [kept s''] eqn:Hrec.
      simpl in *. rewrite filter_cons_False by done.
      rewrite (filter_cons_True _ k) by done.
      by rewrite IH1, IH2, <- app_assoc.
Qed.

Lemma filterAttributes_eq (am : Map) (attributesToKeep : gset string) :
  filterAttributes am attributesToKeep
  = if decide (attributesToKeep = ∅) then (nil_slice, am)
    else ((RemoveIf (dropEntry attributesToKeep) am nil_slice).2,
          (RemoveIf (dropEntry attributesToKeep) am nil_slice).1).
Proof.
  unfold filterAttributes. case_bool_decide as Hsz; case_decide as He.
  - subst. rewrite size_empty in Hsz. lia.
  - by destruct (RemoveIf _ _ _).
  - done.
  - exfalso. apply He. apply leibniz_equiv, size_empty_iff. lia.
Qed.

(** C7. With an empty [attributesToKeep], [filterAttributes] keeps every
    attribute and reports no dropped key.  With a non-empty one it removes
    exactly the attributes whose key is not in the set, keeps the others in
    their order, and returns the removed keys in the iteration order of the
    map. *)
Theorem filterAttributes_spec (am : Map) (attributesToKeep : gset string) :
  (attributesToKeep = ∅ ->
     filterAttributes am attributesToKeep = (nil_slice, am))
  /\ (attributesToKeep <> ∅ ->
        (filterAttributes am attributesToKeep).2
        = filter (fun kv => kv.1 ∈ attributesToKeep) am
        /\ slice_elems (filterAttributes am attributesToKeep).1
           = filter (fun k => k ∉ attributesToKeep) (keys am)).
Proof.
  rewrite filterAttributes_eq. split; intros H; case_decide; try done.
  simpl. apply (RemoveIf_dropEntry attributesToKeep am nil_slice).
Qed.

Lemma filterAttributes_spec_witness :
  filterAttributes [("a", ValueInt 1); ("b", ValueInt 2); ("c", ValueInt 3)] ∅
  = (nil_slice,
     [("a"%string, ValueInt 1); ("b"%string, ValueInt 2);
      ("c"%string, ValueInt 3)])
  /\ (filterAttributes
        [("a", ValueInt 1); ("b", ValueInt 2); ("c", ValueInt 3)]
        {["a"%string; "c"%string]}).2
     = filter (fun kv => kv.1 ∈ ({["a"%string; "c"%string]} : gset string))
         [("a"%string, ValueInt 1); ("b"%string, ValueInt 2);
          ("c"%string, ValueInt 3)].
Proof.
  split.
  - apply (filterAttributes_spec
             [("a"%string, ValueInt 1); ("b"%string, ValueInt 2);
              ("c"%string, ValueInt 3)] ∅). reflexivity.
  - apply (filterAttributes_spec
             [("a"%string, ValueInt 1); ("b"%string, ValueInt 2);
              ("c"%string, ValueInt 3)] {["a"%string; "c"%string]}).
    intros H. assert ("a"%string ∈ (∅ : gset string)) as Hin
      by (rewrite <- H; set_solver).
    set_solver.
Defined.

(** The example of the specification: an allow-list of [a] and [c] turns
    [a, b, c] into [a, c] and reports [b]. *)
Example filterAttributes_abc :
  filterAttributes [("a", ValueInt 1); ("b", ValueInt 2); ("c", ValueInt 3)]
    {["a"%string; "c"%string]}
  = (Some ["b"%string],
     [("a"%string, ValueInt 1); ("c"%string, ValueInt 3)]).
Proof. vm_compute. reflexivity. Qed.

(** ** Conversion to plain values *)

Lemma UnwrapAttribute_slice (l : Slice) :
  UnwrapAttribute (ValueSlice l) = ISlice (getSerializableArray l).
Proof. reflexivity. Qed.

Lemma UnwrapAttribute_map (m : Map) :
  UnwrapAttribute (ValueMap m) = IMap (AttributesToMap m).
Proof. reflexivity. Qed.

Lemma append_fold (l : Slice) (outArr : slice iface) :
  fold_left (fun outArr x => append outArr (UnwrapAttribute x)) l outArr
  = match l with
    | [] => outArr
    | _ :: _ => Some (slice_elems outArr ++ (UnwrapAttribute <$> l))
    end.
Proof.
  revert outArr. induction l as [|x l IH]; intros outArr; [done|].
  cbn [fold_left]. rewrite IH. destruct l as [|y l]; [done|].
  unfold append, slice_elems; simpl. by rewrite <- app_assoc.
Qed.

Lemma getSerializableArray_eq (l : Slice) :
  getSerializableArray l
  = match l with [] => nil_slice | _ :: _ => Some (UnwrapAttribute <$> l) end.
Proof. unfold getSerializableArray. rewrite append_fold. by destruct l. Qed.

Lemma getSerializableArray_elems (l : Slice) :
  slice_elems (getSerializableArray l) = UnwrapAttribute <$> l.
Proof. rewrite getSerializableArray_eq. by destruct l. Qed.

Lemma insert_fold_lookup (m : Map) (mp : gmap string iface) (k : string) :
  fold_left (fun mp kv => <[kv.1 := UnwrapAttribute kv.2]> mp) m mp !! k
  = match GetLast m k with
    | Some v => Some (UnwrapAttribute v)
    | None => mp !! k
    end.
Proof.
  revert mp. induction m as [|[k0 v0] m IH]; intros mp; simpl; [done|].
  rewrite IH. destruct (GetLast m k); [done|].
  case_decide as Hk.
  - subst. by rewrite lookup_insert_eq.
  - by rewrite lookup_insert_ne.
Qed.

Lemma AttributesToMap_lookup (m : Map) (k : string) :
  AttributesToMap m !! k = UnwrapAttribute <$> GetLast m k.
Proof.
  unfold AttributesToMap.
  rewrite (Range_fold (fun k v mp => <[k := UnwrapAttribute v]> mp)).
  rewrite insert_fold_lookup. by destruct (GetLast m k).
Qed.

(** Unwrapping commutes with following a path into the value. *)
Lemma UnwrapAttribute_descend (path : list step) (v : Value) :
  idescend path (UnwrapAttribute v) = UnwrapAttribute <$> descend path v.
Proof.
  revert v. induction path as [|[i|k] path IH]; intros v; [done| |].
  - destruct v; try done.
    rewrite UnwrapAttribute_slice. cbn [idescend descend].
    rewrite getSerializableArray_elems, list_lookup_fmap.
    destruct (l !! i) as [x|]; [apply IH|done].
  - destruct v; try done.
    rewrite UnwrapAttribute_map. cbn [idescend descend].
    rewrite AttributesToMap_lookup.
    destruct (GetLast m k) as [x|]; [apply IH|done].
Qed.

(** C9. [UnwrapAttribute] is a total function on attribute values.  Bool,
    Int, Double and Str values come back as the same scalar, and different
    scalars stay different.  An array comes back as the sequence of its
    unwrapped elements and a map as a Go map from each key to its unwrapped
    value (the last one, should a key occur twice); this holds at every
    depth, so whatever a path reaches in the value, the same path reaches
    unwrapped in the result.  The Empty and Bytes variants, which the switch
    has no case for, come back as nil. *)
Theorem UnwrapAttribute_lossless :
  (forall b, UnwrapAttribute (ValueBool b) = IBool b)
  /\ (forall i, UnwrapAttribute (ValueInt i) = IInt i)
  /\ (forall d, UnwrapAttribute (ValueDouble d) = IDouble d)
  /\ (forall s, UnwrapAttribute (ValueStr s) = IStr s)
  /\ (forall v1 v2, scalar v1 = true -> scalar v2 = true ->
        UnwrapAttribute v1 = UnwrapAttribute v2 -> v1 = v2)
  /\ (forall l,
        UnwrapAttribute (ValueSlice l) = ISlice (getSerializableArray l)
        /\ slice_elems (getSerializableArray l) = UnwrapAttribute <$> l)
  /\ (forall m,
        UnwrapAttribute (ValueMap m) = IMap (AttributesToMap m)
        /\ (forall k,
              AttributesToMap m !! k = UnwrapAttribute <$> GetLast m k)
        /\ (NoDup (keys m) -> forall k,
              AttributesToMap m !! k = UnwrapAttribute <$> pcommon.Get m k))
  /\ (forall path v,
        idescend path (UnwrapAttribute v)
        = UnwrapAttribute <$> descend path v)
  /\ UnwrapAttribute ValueEmpty = INil
  /\ (forall bs, UnwrapAttribute (ValueBytes bs) = INil).
Proof.
  repeat split; try done.
  - intros [] []; simpl; try done; congruence.
  - apply getSerializableArray_elems.
  - apply AttributesToMap_lookup.
  - intros Hnd k. rewrite AttributesToMap_lookup. by rewrite GetLast_NoDup.
  - apply UnwrapAttribute_descend.
Qed.

Lemma UnwrapAttribute_lossless_witness :
  (UnwrapAttribute (ValueInt 7) = UnwrapAttribute (ValueInt 7) ->
   ValueInt 7 = ValueInt 7)
  /\ AttributesToMap [("k", ValueSlice [ValueInt 7; ValueStr "x"])] !! "k"%string
     = UnwrapAttribute
         <$> pcommon.Get [("k"%string, ValueSlice [ValueInt 7; ValueStr "x"])] "k".
Proof.
  destruct UnwrapAttribute_lossless as (_ & _ & _ & _ & Hinj & _ & Hmap & _).
  split.
  - apply (Hinj (ValueInt 7) (ValueInt 7)); reflexivity.
  - apply (Hmap [("k"%string, ValueSlice [ValueInt 7; ValueStr "x"])]).
    vm_compute. apply NoDup_cons. split; [|apply NoDup_nil; exact I].
    intros H. inversion H.
Defined.

(** A nested value, unwrapped. *)
Example UnwrapAttribute_nested :
  UnwrapAttribute
    (ValueMap [("xs", ValueSlice [ValueInt 1; ValueBool true]);
               ("s", ValueStr "x"); ("e", ValueSlice [])])
  = IMap (<["xs"%string := ISlice (Some [IInt 1; IBool true])]>
            (<["s"%string := IStr "x"]>
               (<["e"%string := ISlice None]> ∅))).
Proof. vm_compute. reflexivity. Qed.

(** The claim C10 fails as stated: for an array without elements
    [UnwrapAttribute] returns an interface value that holds a nil slice,
    and that is neither the nil interface nor what the Empty variant
    unwraps to. *)
Lemma empty_array_not_null :
  UnwrapAttribute (ValueSlice []) <> INil
  /\ UnwrapAttribute (ValueSlice []) <> UnwrapAttribute ValueEmpty.
Proof. split; discriminate. Qed.

(** C10, amended.  For an array without elements [getSerializableArray]
    returns the nil slice, not an allocated empty slice, and it returns the
    nil slice for no other array.  [UnwrapAttribute] hands that nil slice
    out boxed in an interface value, which is never the nil interface. *)
Theorem getSerializableArray_empty :
  getSerializableArray [] = nil_slice
  /\ (forall l, getSerializableArray l <> Some [])
  /\ (forall l, getSerializableArray l = nil_slice <-> l = [])
  /\ UnwrapAttribute (ValueSlice []) = ISlice nil_slice
  /\ (forall l, UnwrapAttribute (ValueSlice l) <> INil).
Proof.
  split; [done|]. split.
  { intros l. rewrite getSerializableArray_eq. by destruct l. }
  split.
  { intros l. rewrite getSerializableArray_eq. by destruct l. }
  split; [done|]. intros l. by rewrite UnwrapAttribute_slice.
Qed.

(** ** Precedence among merged resources *)

Lemma MergeResource_keep_Get (to from : Resource) (k : string) :
  pcommon.Get (Attributes (MergeResource to from false)) k
  = match pcommon.Get (Attributes to) k with
    | Some v => Some v
    | None => pcommon.Get (Attributes from) k
    end.
Proof.
  unfold MergeResource, IsEmptyResource, Len.
  destruct from as [from], to as [to]; cbn [Attributes].
  case_bool_decide as Hlen; [|apply merge_keep_Get].
  assert (from = []) as -> by (destruct from; [done|simpl in Hlen; lia]).
  simpl. by destruct (pcommon.Get to k).
Qed.

Lemma merge_all_Get (rs : list (Resource * string)) (acc : Resource)
    (k : string) :
  pcommon.Get
    (Attributes (fold_left (fun acc x => MergeResource acc x.1 false) rs acc)) k
  = match pcommon.Get (Attributes acc) k with
    | Some v => Some v
    | None => firstValue rs k
    end.
Proof.
  revert acc. induction rs as [|x rs IH]; intros acc; simpl.
  - by destruct (pcommon.Get (Attributes acc) k).
  - rewrite IH, MergeResource_keep_Get.
    by destruct (pcommon.Get (Attributes acc) k).
Qed.

Lemma Get_filter (keep : gset string) (m : Map) (k : string) :
  pcommon.Get (filter (fun kv => kv.1 ∈ keep) m) k
  = if decide (k ∈ keep) then pcommon.Get m k else None.
Proof.
  induction m as [|[k0 v0] m IH]; simpl; [by case_decide|].
  destruct (decide (k0 ∈ keep)) as [Hin|Hout].
  - rewrite filter_cons_True by done. simpl. rewrite IH.
    destruct (decide (k0 = k)) as [->|Hne]; [by rewrite decide_True|done].
  - rewrite filter_cons_False by done. rewrite IH.
    destruct (decide (k0 = k)) as [->|Hne]; [by rewrite !decide_False|done].
Qed.

Lemma Get_filterAttributes (keep : gset string) (m : Map) (k : string) :
  pcommon.Get (filterAttributes m keep).2 k
  = if decide (keep = ∅ \/ k ∈ keep) then pcommon.Get m k else None.
Proof.
  rewrite filterAttributes_eq. destruct (decide (keep = ∅)) as [->|Hne].
  - cbn [snd]. case_decide as H; [done|]. exfalso. apply H. by left.
  - cbn [snd].
    rewrite (proj1 (RemoveIf_dropEntry keep m nil_slice)), Get_filter.
    repeat case_decide; try done; tauto.
Qed.

(** ** The provider *)

Section EngineFacts.

Context {World : Type} (Now : World -> Z) {Logger : Type}.

Implicit Types (p : @ResourceProvider World Logger) (env : @Env World Logger).
Implicit Types (ds : list (@Detector World)) (ctx : context.Context).

Lemma detectAll_length ctx ds (w : World) :
  length (detectAll ctx ds w).1 = length ds.
Proof.
  revert w. induction ds as [|d ds IH]; intros w; simpl; [done|].
  destruct (Detect d ctx w) as [out w'].
  specialize (IH w'). destruct (detectAll ctx ds w') as [outs w''].
  simpl in *. by rewrite IH.
Qed.

(** The detector loop merges what the succeeding detectors returned, in
    order, warns once per failing detector, and leaves the world as the
    calls to [Detect] left it. *)
Lemma detect_loop p ctx ds (res : Resource) (url : string) env :
  fold_left (detectStep p ctx) ds (res, url, env)
  = (fold_left (fun acc x => MergeResource acc x.1 false)
       (successes (detectAll ctx ds (world env)).1) res,
     fold_left (fun acc x => MergeSchemaURL acc x.2)
       (successes (detectAll ctx ds (world env)).1) url,
     mkEnv (detectAll ctx ds (world env)).2
       (logs env
        ++ ((fun e => mkLogEntry (logger p) zap.WarnLevel
                        "failed to detect resource" [zap.Error e])
              <$> failures (detectAll ctx ds (world env)).1))).
Proof.
  revert res url env.
  induction ds as [|d ds IH]; intros res url [w lg].
  - simpl. by rewrite app_nil_r.
  - cbn [fold_left detectAll]. unfold detectStep at 2. cbn [world logs].
    destruct (Detect d ctx w) as [[[r s] [e|]] w'].
    + unfold Warn. rewrite IH. cbn [world logs].
      destruct (detectAll ctx ds w') as [outs w'']. cbn.
      by rewrite <- app_assoc.
    + rewrite IH. cbn [world logs].
      destruct (detectAll ctx ds w') as [outs w'']. done.
Qed.

(** [detectResource] in one equation: the memoised cell holds the filtered
    merge of the successful results, the merged schema URL and a nil
    error. *)
Lemma detectResource_eq p ctx env :
  detectResource p ctx env
  = (set_detectedResource p
       (Some (mkResourceResult
                (mkResource
                   (filterAttributes
                      (Attributes
                         (mergeAll
                            (successes
                               (detectAll ctx (detectors p) (world env)).1)))
                      (attributesToKeep p)).2)
                (mergeAllSchemaURLs
                   (successes (detectAll ctx (detectors p) (world env)).1))
                None)),
     mkEnv (detectAll ctx (detectors p) (world env)).2
       (logs env
        ++ detectionLog (logger p)
             (failures (detectAll ctx (detectors p) (world env)).1)
             (filterAttributes
                (Attributes
                   (mergeAll
                      (successes
                         (detectAll ctx (detectors p) (world env)).1)))
                (attributesToKeep p)).2
             (slice_elems
                (filterAttributes
                   (Attributes
                      (mergeAll
                         (successes
                            (detectAll ctx (detectors p) (world env)).1)))
                   (attributesToKeep p)).1))).
Proof.
  unfold detectResource. cbn [detectors logger attributesToKeep
    set_detectedResource detectedResource].
  rewrite detect_loop. unfold Info at 3. cbn [world logs logger].
  fold (mergeAll (successes (detectAll ctx (detectors p) (world env)).1)).
  fold (mergeAllSchemaURLs
          (successes (detectAll ctx (detectors p) (world env)).1)).
  destruct (filterAttributes _ _) as [dropped attrs]. cbn [fst snd].
  unfold detectionLog, set_detectedResource, Info. cbn.
  f_equal. case_bool_decide; cbn; f_equal;
    rewrite <- ?app_assoc; cbn; rewrite <- ?app_assoc; try done.
Qed.

(** The first [Get] on a provider whose gate is open runs the detection
    under the caller's context cut off at the client's timeout, stores the
    result and shuts the gate. *)
Lemma Get_first p ctx (client : http.Client) env :
  once p = false ->
  Get Now p ctx client env
  = (Some (triple
             (detection (attributesToKeep p)
                (detectAll
                   (context.WithTimeout (Now (world env)) ctx
                      (http.Timeout client))
                   (detectors p) (world env)).1)),
     set_once
       (set_detectedResource p
          (Some (detection (attributesToKeep p)
                   (detectAll
                      (context.WithTimeout (Now (world env)) ctx
                         (http.Timeout client))
                      (detectors p) (world env)).1)))
       true,
     mkEnv
       (detectAll
          (context.WithTimeout (Now (world env)) ctx (http.Timeout client))
          (detectors p) (world env)).2
       (logs env
        ++ detectionLog (logger p)
             (failures
                (detectAll
                   (context.WithTimeout (Now (world env)) ctx
                      (http.Timeout client))
                   (detectors p) (world env)).1)
             (Attributes
                (resource
                   (detection (attributesToKeep p)
                      (detectAll
                         (context.WithTimeout (Now (world env)) ctx
                            (http.Timeout client))
                         (detectors p) (world env)).1)))
             (droppedKeys (attributesToKeep p)
                (detectAll
                   (context.WithTimeout (Now (world env)) ctx
                      (http.Timeout client))
                   (detectors p) (world env)).1))).
Proof.
  intros Hopen. unfold Get, onceDo. rewrite Hopen, detectResource_eq.
  reflexivity.
Qed.

(** A [Get] on a provider whose gate is shut reads the stored result and
    changes nothing. *)
Lemma Get_again p ctx (client : http.Client) env (r : resourceResult) :
  once p = true -> detectedResource p = Some r ->
  Get Now p ctx client env = (Some (triple r), p, env).
Proof. intros Hshut Hcell. unfold Get, onceDo. by rewrite Hshut, Hcell. Qed.

Lemma GetAll_again (calls : list (context.Context * http.Client)) p env
    (r : resourceResult) :
  once p = true -> detectedResource p = Some r ->
  GetAll Now calls p env
  = (replicate (length calls) (Some (triple r)), p, env).
Proof.
  intros Hshut Hcell. induction calls as [|[ctx client] calls IH]; [done|].
  cbn [GetAll]. rewrite (Get_again _ _ _ _ r), IH by done. done.
Qed.

Lemma detection_passes_detectionLog (w w' : World) (lgs : list LogEntry)
    (lg : Logger) (errs : list error) (attrs : Map) (dropped : list string) :
  detection_passes (mkEnv w' (lgs ++ detectionLog lg errs attrs dropped))
  = S (detection_passes (mkEnv w lgs)).
Proof.
  unfold detection_passes, detectionLog. cbn [logs].
  rewrite !filter_app, !length_app.
  assert (filter
            (fun e : @LogEntry Logger =>
               entry_msg e = "began detecting resource information"%string)
            ((fun e => mkLogEntry lg zap.WarnLevel
                         "failed to detect resource" [zap.Error e]) <$> errs)
          = []) as ->.
  { induction errs as [|e errs IH]; [done|].
    cbn [fmap list_fmap]. rewrite filter_cons_False; [exact IH|].
    cbn. discriminate. }
  rewrite filter_cons_True by done.
  rewrite (filter_cons_False _ (mkLogEntry lg zap.InfoLevel
             "detected resource information" _)) by (cbn; discriminate).
  case_bool_decide.
  - rewrite filter_cons_False by (cbn; discriminate). cbn. lia.
  - cbn. lia.
Qed.

(** C1. On a provider made by [NewResourceProvider], however many times
    [Get] is called one after the other, [detectResource] runs once, in
    the first call; that call stores a result in [detectedResource], and
    every later call returns that same (resource, schemaURL, err) triple
    and leaves the provider, the world and the log as the first call left
    them. *)
Theorem Get_memoises (lg : Logger) (t : Z) (keep : gset string) ds
    ctx (client : http.Client)
    (calls : list (context.Context * http.Client)) env :
  exists (r : resourceResult) p1 env1,
    Get Now (NewResourceProvider lg t keep ds) ctx client env
    = (Some (triple r), p1, env1)
    /\ detectedResource p1 = Some r
    /\ detection_passes env1 = S (detection_passes env)
    /\ GetAll Now calls p1 env1
       = (replicate (length calls) (Some (triple r)), p1, env1)
    /\ GetAll Now ((ctx, client) :: calls) (NewResourceProvider lg t keep ds)
         env
       = (replicate (S (length calls)) (Some (triple r)), p1, env1).
Proof.
  set (p0 := NewResourceProvider lg t keep ds).
  pose proof (Get_first p0 ctx client env eq_refl) as Hfirst.
  eexists _, _, _. split; [exact Hfirst|].
  split; [done|]. split.
  { destruct env as [w lgs]. apply detection_passes_detectionLog. }
  split; [by apply GetAll_again|].
  cbn [GetAll]. rewrite Hfirst.
  erewrite GetAll_again; [reflexivity|reflexivity|reflexivity].
Qed.

Lemma warnings_detectionLog (w w' : World) (lgs : list LogEntry)
    (lg : Logger) (errs : list error) (attrs : Map) (dropped : list string) :
  warnings (mkEnv w' (lgs ++ detectionLog lg errs attrs dropped))
  = warnings (mkEnv w lgs)
    ++ ((fun e => mkLogEntry lg zap.WarnLevel "failed to detect resource"
                    [zap.Error e]) <$> errs).
Proof.
  unfold warnings, detectionLog. cbn [logs].
  rewrite !filter_app. f_equal.
  rewrite filter_cons_False by (cbn; discriminate).
  rewrite filter_nil, app_nil_l.
  rewrite (filter_cons_False _ (mkLogEntry lg zap.InfoLevel
             "detected resource information" _)) by (cbn; discriminate).
  assert (filter (fun e : @LogEntry Logger => entry_level e = zap.WarnLevel)
            (if bool_decide (0 < Z.of_nat (length dropped))
             then [mkLogEntry lg zap.InfoLevel "dropped resource information"
                     [zap.Strings "resource keys" dropped]]
             else []) = []) as ->.
  { case_bool_decide; [|done].
    by rewrite filter_cons_False by (cbn; discriminate). }
  rewrite app_nil_r.
  induction errs as [|e errs IH]; [done|].
  cbn [fmap list_fmap]. rewrite filter_cons_True by done. by f_equal.
Qed.

Lemma successes_skip
    (outs1 outs2 : list (Resource * string * option error))
    (r : Resource) (s : string) (e : error) :
  successes (outs1 ++ (r, s, Some e) :: outs2) = successes (outs1 ++ outs2).
Proof. unfold successes. by rewrite !omap_app. Qed.

(** C4. Whatever mix of detectors fail and succeed, [Get] calls every
    detector in order, merges what the succeeding ones returned (in that
    order, schema URLs and attributes alike) and returns a nil error; a
    failing detector adds a warning to the log and nothing to the result,
    whatever resource and schema URL it returned next to its error. *)
Theorem Get_tolerates_failures (lg : Logger) (t : Z) (keep : gset string) ds
    ctx (client : http.Client) env :
  exists p1 env1,
    Get Now (NewResourceProvider lg t keep ds) ctx client env
    = (Some
         (mkResource
            (filterAttributes
               (Attributes
                  (mergeAll
                     (successes
                        (detectAll
                           (context.WithTimeout (Now (world env)) ctx
                              (http.Timeout client)) ds (world env)).1)))
               keep).2,
          mergeAllSchemaURLs
            (successes
               (detectAll
                  (context.WithTimeout (Now (world env)) ctx
                     (http.Timeout client)) ds (world env)).1),
          None), p1, env1)
    /\ length
         (detectAll
            (context.WithTimeout (Now (world env)) ctx (http.Timeout client))
            ds (world env)).1
       = length ds
    /\ world env1
       = (detectAll
            (context.WithTimeout (Now (world env)) ctx (http.Timeout client))
            ds (world env)).2
    /\ warnings env1
       = warnings env
         ++ ((fun e => mkLogEntry lg zap.WarnLevel "failed to detect resource"
                         [zap.Error e])
               <$> failures
                     (detectAll
                        (context.WithTimeout (Now (world env)) ctx
                           (http.Timeout client)) ds (world env)).1)
    /\ (forall outs1 r s e outs2,
          detection keep (outs1 ++ (r, s, Some e) :: outs2)
          = detection keep (outs1 ++ outs2)).
Proof.
  eexists _, _. split; [by apply Get_first|].
  split; [apply detectAll_length|]. split; [done|]. split.
  - destruct env as [w lgs]. apply warnings_detectionLog.
  - intros outs1 r s e outs2. unfold detection. by rewrite successes_skip.
Qed.

(** C3, amended.  The first [Get] derives the context of the detection
    pass from the caller's context with [context.WithTimeout] and the
    [Timeout] of the client it was given: the deadline is at most that
    timeout away and never later than the caller's, every detector is
    called with that context, and the provider's own [timeout] field has no
    part in it. *)
Theorem Get_runs_under_client_timeout (lg : Logger) (t : Z)
    (keep : gset string) ds ctx (client : http.Client) env :
  (exists d,
     context.Deadline
       (context.WithTimeout (Now (world env)) ctx (http.Timeout client))
     = Some d
     /\ d <= Now (world env) + http.Timeout client
     /\ (forall d0, context.Deadline ctx = Some d0 -> d <= d0))
  /\ Get Now (NewResourceProvider lg t keep ds) ctx client env
     = (let '(p', env') :=
          detectResource (NewResourceProvider lg t keep ds)
            (context.WithTimeout (Now (world env)) ctx (http.Timeout client))
            env in
        (triple <$> detectedResource p', set_once p' true, env'))
  /\ world (Get Now (NewResourceProvider lg t keep ds) ctx client env).2
     = (detectAll
          (context.WithTimeout (Now (world env)) ctx (http.Timeout client))
          ds (world env)).2
  /\ (forall t',
        (Get Now (NewResourceProvider lg t' keep ds) ctx client env).1.1
        = (Get Now (NewResourceProvider lg t keep ds) ctx client env).1.1
        /\ (Get Now (NewResourceProvider lg t' keep ds) ctx client env).2
           = (Get Now (NewResourceProvider lg t keep ds) ctx client env).2).
Proof.
  split.
  { unfold context.WithTimeout. destruct ctx as [[cur|]]; cbn.
    - destruct (Z.ltb_spec cur (Now (world env) + http.Timeout client)).
      + exists cur. cbn. split; [done|]. split; [lia|].
        intros d0 [= <-]. lia.
      + eexists. cbn. split; [done|]. split; [lia|].
        intros d0 [= <-]. lia.
    - eexists. split; [done|]. split; [lia|]. intros d0 [=]. }
  split.
  { rewrite Get_first by done. rewrite detectResource_eq. reflexivity. }
  split; [by rewrite Get_first|].
  intros t'. by rewrite !Get_first.
Qed.

(** C2, amended.  With detectors [D1; D2] that both succeed and both have
    a value for [k], the resource [Get] returns holds the value of [D1] for
    [k] whenever [k] passes the attribute filter (the set of attributes to
    keep is empty or contains [k]); when the filter drops [k], the returned
    resource has no value for it. *)
Theorem Get_first_detector_wins (lg : Logger) (t : Z) (keep : gset string)
    (D1 D2 : @Detector World) ctx (client : http.Client) env
    (r1 r2 : Resource) (s1 s2 : string) (w1 w2 : World) (k : string)
    (v1 v2 : Value) :
  Detect D1 (context.WithTimeout (Now (world env)) ctx (http.Timeout client))
    (world env) = ((r1, s1, None), w1) ->
  Detect D2 (context.WithTimeout (Now (world env)) ctx (http.Timeout client))
    w1 = ((r2, s2, None), w2) ->
  pcommon.Get (Attributes r1) k = Some v1 ->
  pcommon.Get (Attributes r2) k = Some v2 ->
  exists res url p1 env1,
    Get Now (NewResourceProvider lg t keep [D1; D2]) ctx client env
    = (Some (res, url, None), p1, env1)
    /\ (keep = ∅ \/ k ∈ keep -> pcommon.Get (Attributes res) k = Some v1)
    /\ (keep <> ∅ -> k ∉ keep -> pcommon.Get (Attributes res) k = None).
Proof.
  intros HD1 HD2 Hk1 Hk2.
  eexists _, _, _, _. split; [by apply Get_first|].
  cbn [detectors attributesToKeep NewResourceProvider detectAll].
  rewrite HD1, HD2. unfold detection.
  cbn [fst snd successes omap list_omap Attributes resource].
  rewrite Get_filterAttributes. unfold mergeAll. rewrite merge_all_Get.
  cbn [firstValue fst NewResource Attributes pcommon.Get]. rewrite Hk1.
  split.
  - intros Hpass. by rewrite decide_True.
  - intros Hne Hout. rewrite decide_False; [done|]. intros [?|?]; done.
Qed.

End EngineFacts.

(** ** The detector registry *)

Section RegistryFacts.

Context {World DetectorConfig Logger : Type}.

Implicit Types (f : @ResourceProviderFactory World DetectorConfig Logger).
Implicit Types (params : @ProcessorCreateSettings Logger).
Implicit Types (cfgs : @ResourceDetectorConfig DetectorConfig).
Implicit Types (ds acc : list (@Detector World)) (w : World).

Lemma getDetectors_loop_app f params cfgs (ts1 ts2 : list DetectorType)
    acc w :
  getDetectors_loop f params cfgs (ts1 ++ ts2) acc w
  = match getDetectors_loop f params cfgs ts1 acc w with
    | (Ok acc', w') => getDetectors_loop f params cfgs ts2 acc' w'
    | (Err e, w') => (Err e, w')
    end.
Proof.
  revert acc w. induction ts1 as [|t ts1 IH]; intros acc w; [done|].
  cbn [app getDetectors_loop].
  destruct (factory_detectors f !! t) as [fac|]; [|done].
  destruct (fac params (GetConfigFromType cfgs t) w) as [[d|e] w']; [|done].
  apply IH.
Qed.

Lemma getDetectors_loop_length f params cfgs (ts : list DetectorType)
    acc w ds w' :
  getDetectors_loop f params cfgs ts acc w = (Ok ds, w') ->
  length ds = (length acc + length ts)%nat.
Proof.
  revert acc w. induction ts as [|t ts IH]; intros acc w; cbn.
  - intros [= <- <-]. lia.
  - destruct (factory_detectors f !! t) as [fac|]; [|done].
    destruct (fac params (GetConfigFromType cfgs t) w) as [[d|e] w1];
      [|done].
    intros H. apply IH in H. rewrite length_app in H. cbn in H. lia.
Qed.

(** C8. [getDetectors] goes through the requested types in order.  Once the
    types up to some point have been built, a next type that the registry
    does not know, or whose constructor fails, ends the call with an error
    and without detectors, whatever types follow and without running any
    later constructor; a next type whose constructor succeeds adds its
    detector at the end.  So a successful call returns one detector per
    requested type, in request order, and [CreateResourceProvider] hands
    the error or the detectors on. *)
Theorem getDetectors_fail_fast f params cfgs (pre post : list DetectorType)
    (t : DetectorType) w ds w1 :
  getDetectors f params cfgs pre w = (Ok ds, w1) ->
  length ds = length pre
  /\ (factory_detectors f !! t = None ->
        getDetectors f params cfgs (pre ++ t :: post) w
        = (Err (invalidDetectorKey t), w1))
  /\ (forall fac e w2,
        factory_detectors f !! t = Some fac ->
        fac params (GetConfigFromType cfgs t) w1 = (Err e, w2) ->
        getDetectors f params cfgs (pre ++ t :: post) w
        = (Err (failedCreatingDetector t e), w2))
  /\ (forall fac d w2,
        factory_detectors f !! t = Some fac ->
        fac params (GetConfigFromType cfgs t) w1 = (Ok d, w2) ->
        getDetectors f params cfgs (pre ++ [t]) w = (Ok (ds ++ [d]), w2))
  /\ (forall timeout attributes,
        exists keep,
          CreateResourceProvider f params timeout attributes cfgs pre w
          = (Ok (NewResourceProvider (settings_Logger params) timeout keep ds),
             w1)
          /\ forall a, a ∈ keep <-> a ∈ attributes)
  /\ (forall timeout attributes types e w',
        getDetectors f params cfgs types w = (Err e, w') ->
        CreateResourceProvider f params timeout attributes cfgs types w
        = (Err e, w')).
Proof.
  unfold getDetectors. intros Hpre.
  split; [by apply getDetectors_loop_length in Hpre|].
  split; [|split; [|split; [|split]]].
  - intros Hnone. rewrite getDetectors_loop_app, Hpre.
    cbn [getDetectors_loop]. unfold DetectorFactory in *.
    by rewrite Hnone.
  - intros fac e w2 Hfac Herr. rewrite getDetectors_loop_app, Hpre.
    cbn [getDetectors_loop]. unfold DetectorFactory in *.
    by rewrite Hfac, Herr.
  - intros fac d w2 Hfac Hok. rewrite getDetectors_loop_app, Hpre.
    cbn [getDetectors_loop]. unfold DetectorFactory in *.
    by rewrite Hfac, Hok.
  - intros timeout attributes. unfold CreateResourceProvider, getDetectors.
    rewrite Hpre. eexists. split; [reflexivity|].
    intros a. case_bool_decide as Hlen.
    + clear Hlen.
      assert (forall (s : gset string),
                a ∈ fold_left (fun keep attribute => {[attribute]} ∪ keep)
                      attributes s <-> a ∈ s \/ a ∈ attributes) as Hfold.
      { induction attributes as [|b bs IH]; intros s; cbn.
        - set_solver.
        - rewrite IH. set_solver. }
      rewrite Hfold. set_solver.
    + destruct attributes; [set_solver|cbn in Hlen; lia].
  - intros timeout attributes types e w' Herr.
    unfold CreateResourceProvider, getDetectors. by rewrite Herr.
Qed.

(** Without requested types there is nothing to build. *)
Lemma getDetectors_nil f params cfgs w :
  getDetectors f params cfgs [] w = (Ok [], w).
Proof. reflexivity. Qed.

End RegistryFacts.

(** ** The properties in the concrete setting *)

Lemma Get_first_detector_wins_witness :
  exists res url p1 env1,
    Get Scenario.Now
      (NewResourceProvider tt 5 ∅ [Scenario.D1; Scenario.D2])
      context.Background (http.mkClient 7) Scenario.env0
    = (Some (res, url, None), p1, env1)
    /\ pcommon.Get (Attributes res) "k" = Some (ValueStr "a").
Proof.
  destruct (Get_first_detector_wins Scenario.Now tt 5 ∅
              Scenario.D1 Scenario.D2 context.Background (http.mkClient 7)
              Scenario.env0
              (mkResource [("k"%string, ValueStr "a")])
              (mkResource [("k"%string, ValueStr "b")])
              "v1" "v2"
              [context.mkContext (Some 107)]
              [context.mkContext (Some 107); context.mkContext (Some 107)]
              "k" (ValueStr "a") (ValueStr "b")
              eq_refl eq_refl eq_refl eq_refl)
    as (res & url & p1 & env1 & HGet & Hkeep & _).
  exists res, url, p1, env1. split; [exact HGet|].
  apply Hkeep. left. reflexivity.
Defined.

(** The claim C2 fails as stated: both detectors succeed with a value for
    [k], the provider keeps only the attribute [other], and the resource
    [Get] returns has no value for [k]. *)
Lemma Get_drops_shared_key :
  (Get Scenario.Now
     (NewResourceProvider tt 5 {["other"%string]} [Scenario.D1; Scenario.D2])
     context.Background (http.mkClient 7) Scenario.env0).1.1
  = Some (mkResource [], "v1"%string, None)
  /\ pcommon.Get (Attributes (mkResource [])) "k" = None.
Proof. split; vm_compute; reflexivity. Qed.

Lemma Get_runs_under_client_timeout_witness :
  exists d,
    context.Deadline
      (context.WithTimeout 100 (context.mkContext (Some 103)) 7) = Some d
    /\ d <= 103.
Proof.
  destruct (Get_runs_under_client_timeout Scenario.Now tt 5 ∅
              [Scenario.D1] (context.mkContext (Some 103)) (http.mkClient 7)
              Scenario.env0) as ((d & Hd & _ & Hparent) & _).
  exists d. split; [exact Hd|]. apply Hparent. reflexivity.
Defined.

(** The claim C3 fails as stated: the provider is configured with a
    timeout of 5, the client has a timeout of 7 and the clock stands at 100;
    the detector is called with the deadline 107, not 105. *)
Lemma Get_ignores_provider_timeout :
  world
    (Get Scenario.Now (NewResourceProvider tt 5 ∅ [Scenario.D1])
       context.Background (http.mkClient 7) Scenario.env0).2
  = [context.mkContext (Some 107)]
  /\ context.WithTimeout (Scenario.Now []) context.Background
       (timeout (NewResourceProvider tt 5 ∅ [Scenario.D1]))
     = context.mkContext (Some 105)
  /\ world
       (Get Scenario.Now (NewResourceProvider tt 5 ∅ [Scenario.D1])
          context.Background (http.mkClient 7) Scenario.env0).2
     <> [context.WithTimeout (Scenario.Now []) context.Background
           (timeout (NewResourceProvider tt 5 ∅ [Scenario.D1]))].
Proof. split; [|split]; vm_compute; [reflexivity|reflexivity|discriminate]. Qed.

Lemma getDetectors_fail_fast_witness :
  getDetectors Scenario.registry Scenario.params Scenario.configs
    ["one"%string; "bad"%string; "two"%string] []
  = (Err (failedCreatingDetector "bad" (errorString "no metadata")),
     [context.mkContext (Some 1); context.mkContext (Some 3)])
  /\ getDetectors Scenario.registry Scenario.params Scenario.configs
       ["one"%string; "nope"%string; "two"%string] []
     = (Err (invalidDetectorKey "nope"), [context.mkContext (Some 1)])
  /\ getDetectors Scenario.registry Scenario.params Scenario.configs
       ["one"%string; "two"%string] []
     = (Ok [Scenario.D1; Scenario.D2],
        [context.mkContext (Some 1); context.mkContext (Some 2)]).
Proof.
  split; [|split].
  - apply (getDetectors_fail_fast Scenario.registry Scenario.params
             Scenario.configs ["one"%string] ["two"%string] "bad" []
             [Scenario.D1] [context.mkContext (Some 1)] eq_refl)
      with (fac := Scenario.breaks 3 "no metadata"); reflexivity.
  - apply (getDetectors_fail_fast Scenario.registry Scenario.params
             Scenario.configs ["one"%string] ["two"%string] "nope" []
             [Scenario.D1] [context.mkContext (Some 1)] eq_refl).
    reflexivity.
  - apply (getDetectors_fail_fast Scenario.registry Scenario.params
             Scenario.configs ["one"%string] [] "two" []
             [Scenario.D1] [context.mkContext (Some 1)] eq_refl)
      with (fac := Scenario.makes 2 Scenario.D2); reflexivity.
Defined.

Lemma getSerializableArray_empty_witness :
  getSerializableArray [] = nil_slice.
Proof.
  destruct getSerializableArray_empty as (_ & _ & Hiff & _).
  apply Hiff. reflexivity.
Defined.

(** The examples of the specification. *)

Example merge_precedence :
  (Get Scenario.Now (NewResourceProvider tt 5 ∅ [Scenario.D1; Scenario.D2])
     context.Background (http.mkClient 7) Scenario.env0).1.1
  = Some (mkResource [("k"%string, ValueStr "a")], "v1"%string, None).
Proof. vm_compute. reflexivity. Qed.

Example partial_failure :
  (Get Scenario.Now
     (NewResourceProvider tt 5 ∅ [Scenario.failing "down"; Scenario.D2])
     context.Background (http.mkClient 7) Scenario.env0).1.1
  = Some (mkResource [("k"%string, ValueStr "b")], "v2"%string, None).
Proof. vm_compute. reflexivity. Qed.

Example all_fail :
  (Get Scenario.Now
     (NewResourceProvider tt 5 ∅ [Scenario.failing "a"; Scenario.failing "b"])
     context.Background (http.mkClient 7) Scenario.env0).1.1
  = Some (mkResource [], EmptyString, None).
Proof. vm_compute. reflexivity. Qed.

(** * Further properties *)

(** ** More on reading and writing maps *)

Lemma Get_app (m1 m2 : Map) (k : string) :
  pcommon.Get (m1 ++ m2) k
  = match pcommon.Get m1 k with
    | Some v => Some v
    | None => pcommon.Get m2 k
    end.
Proof.
  induction m1 as [|[k0 v0] m1 IH]; simpl; [done|]. by case_decide.
Qed.

Lemma Get_None_keys (m : Map) (k : string) :
  pcommon.Get m k = None <-> k ∉ keys m.
Proof.
  unfold keys. induction m as [|[k0 v0] m IH]; simpl.
  - split; [intros _; apply not_elem_of_nil|done].
  - rewrite not_elem_of_cons.
    destruct (decide (k0 = k)) as [->|Hne]; [naive_solver|].
    rewrite IH. naive_solver.
Qed.

Lemma Get_Some_keys (m : Map) (k : string) :
  is_Some (pcommon.Get m k) <-> k ∈ keys m.
Proof.
  destruct (pcommon.Get m k) as [v|] eqn:Hget.
  - split; [intros _|by eexists].
    destruct (decide (k ∈ keys m)) as [|Hout]; [done|].
    apply Get_None_keys in Hout. congruence.
  - apply Get_None_keys in Hget. split; [by intros [? [=]]|done].
Qed.

Lemma Get_elem_of (m : Map) (k : string) (v : Value) :
  pcommon.Get m k = Some v -> (k, v) ∈ m.
Proof.
  induction m as [|[k0 v0] m IH]; simpl; [done|].
  case_decide; [intros [= <-]; subst; left|right; auto].
Qed.

Lemma upsert_absent (m : Map) (k : string) (v : Value) :
  pcommon.Get m k = None -> upsert m k v = m ++ [(k, v)].
Proof.
  induction m as [|[k0 v0] m IH]; simpl; [done|].
  case_decide; [done|]. intros Hget. by rewrite IH.
Qed.

Lemma upsert_length (m : Map) (k : string) (v : Value) :
  length (upsert m k v)
  = match pcommon.Get m k with
    | Some _ => length m
    | None => S (length m)
    end.
Proof.
  induction m as [|[k0 v0] m IH]; simpl; [done|].
  case_decide; simpl; [done|]. rewrite IH. by destruct (pcommon.Get m k).
Qed.

Lemma upsert_NoDup (m : Map) (k : string) (v : Value) :
  NoDup (keys m) -> NoDup (keys (upsert m k v)).
Proof.
  intros Hnd. rewrite keys_upsert.
  destruct (pcommon.Get m k) eqn:Hget; [done|].
  apply NoDup_app. split; [done|]. split; [|apply NoDup_singleton].
  intros x Hx Hk. apply list_elem_of_singleton in Hk as ->.
  by apply Get_None_keys in Hget.
Qed.

(** What an entry of [from] does to [to] during a merge, as a function. *)
Lemma merge_step_cases (overrideTo : bool) (toAttr toAttr' : Map)
    (k : string) (v : Value) :
  toAttr' = (if overrideTo then upsert toAttr k v
             else match pcommon.Get toAttr k with
                  | Some _ => toAttr
                  | None => upsert toAttr k v
                  end) ->
  toAttr' = toAttr \/ toAttr' = upsert toAttr k v.
Proof.
  intros ->. destruct overrideTo; [by right|].
  destruct (pcommon.Get toAttr k); [by left|by right].
Qed.

(** ** Schema URLs, continued *)

Lemma MergeSchemaURL_closed (current incoming : string) :
  MergeSchemaURL current incoming
  = if decide (current = EmptyString) then incoming else current.
Proof. unfold MergeSchemaURL. repeat case_decide; congruence. Qed.

(** X1. Merging schema URLs is associative: merging a third URL into the
    merge of two gives what merging the first into the merge of the other
    two gives, so only the order of the URLs matters, not the grouping. *)
Theorem MergeSchemaURL_assoc (a b c : string) :
  MergeSchemaURL (MergeSchemaURL a b) c
  = MergeSchemaURL a (MergeSchemaURL b c).
Proof.
  rewrite !MergeSchemaURL_closed.
  destruct (decide (a = EmptyString)) as [->|Ha].
  - done.
  - by rewrite decide_False.
Qed.

Lemma MergeSchemaURL_fold (urls : list string) (current : string) :
  fold_left MergeSchemaURL urls current
  = if decide (current = EmptyString) then firstNonEmpty urls else current.
Proof.
  revert current. induction urls as [|url urls IH]; intros current; simpl.
  - by case_decide.
  - rewrite IH, MergeSchemaURL_closed.
    destruct (decide (current = EmptyString)) as [->|Hc]; [done|].
    by rewrite decide_False.
Qed.

Lemma mergeAllSchemaURLs_firstNonEmpty (rs : list (Resource * string)) :
  mergeAllSchemaURLs rs = firstNonEmpty rs.*2.
Proof.
  unfold mergeAllSchemaURLs.
  assert (forall cur,
            fold_left (fun acc (x : Resource * string) =>
                         MergeSchemaURL acc x.2) rs cur
            = fold_left MergeSchemaURL rs.*2 cur) as ->.
  { induction rs as [|x rs IH]; intros cur; simpl; [done|]. apply IH. }
  by rewrite MergeSchemaURL_fold, decide_True.
Qed.

(** ** Merging resources, continued *)

Lemma MergeResource_Attributes (to from : Resource) (overrideTo : bool) :
  Attributes (MergeResource to from overrideTo)
  = fold_left
      (fun toAttr kv =>
         if overrideTo then upsert toAttr kv.1 kv.2
         else match pcommon.Get toAttr kv.1 with
              | Some _ => toAttr
              | None => upsert toAttr kv.1 kv.2
              end) (Attributes from) (Attributes to).
Proof.
  unfold MergeResource, IsEmptyResource, Len.
  destruct from as [from], to as [to]; cbn [Attributes].
  case_bool_decide as Hlen; [|apply merge_fold].
  by assert (from = []) as -> by (destruct from; [done|simpl in Hlen; lia]).
Qed.

Lemma merge_step_keys (overrideTo : bool) (toAttr : Map) (k0 : string)
    (v0 : Value) (k : string) :
  k ∈ keys (if overrideTo then upsert toAttr k0 v0
            else match pcommon.Get toAttr k0 with
                 | Some _ => toAttr
                 | None => upsert toAttr k0 v0
                 end)
  <-> k ∈ keys toAttr \/ k = k0.
Proof.
  assert (k ∈ keys (upsert toAttr k0 v0) <-> k ∈ keys toAttr \/ k = k0)
    as Hup.
  { rewrite keys_upsert. destruct (pcommon.Get toAttr k0) eqn:Hget.
    - assert (k0 ∈ keys toAttr) by (apply Get_Some_keys; by eexists).
      naive_solver.
    - rewrite elem_of_app, list_elem_of_singleton. done. }
  destruct overrideTo; [done|].
  destruct (pcommon.Get toAttr k0) eqn:Hget; [|done].
  assert (k0 ∈ keys toAttr) by (apply Get_Some_keys; by eexists).
  naive_solver.
Qed.

Lemma merge_step_length (overrideTo : bool) (toAttr : Map) (k0 : string)
    (v0 : Value) :
  (length toAttr
   <= length (if overrideTo then upsert toAttr k0 v0
              else match pcommon.Get toAttr k0 with
                   | Some _ => toAttr
                   | None => upsert toAttr k0 v0
                   end)
   <= S (length toAttr))%nat.
Proof.
  destruct overrideTo, (pcommon.Get toAttr k0) eqn:Hget;
    rewrite ?upsert_length, ?Hget; lia.
Qed.

Lemma MergeResource_NoDup (to from : Resource) (overrideTo : bool) :
  NoDup (keys (Attributes to)) ->
  NoDup (keys (Attributes (MergeResource to from overrideTo))).
Proof.
  rewrite MergeResource_Attributes.
  generalize (Attributes to) as toAttr.
  induction (Attributes from) as [|[k0 v0] from' IH]; intros toAttr Hnd;
    [done|].
  cbn [fold_left fst snd]. apply IH.
  destruct overrideTo; [by apply upsert_NoDup|].
  destruct (pcommon.Get toAttr k0); [done|by apply upsert_NoDup].
Qed.

(** X2. A merge keeps the keys of [to] unique: when no key occurs twice in
    [to], no key occurs twice in the merged resource, with or without
    override and even when [from] repeats keys. *)
Theorem MergeResource_keeps_keys_unique (to from : Resource)
    (overrideTo : bool) :
  NoDup (keys (Attributes to)) ->
  NoDup (keys (Attributes (MergeResource to from overrideTo))).
Proof. apply MergeResource_NoDup. Qed.

Lemma MergeResource_keeps_keys_unique_witness :
  NoDup
    (keys
       (Attributes
          (MergeResource (mkResource [("a", ValueInt 1)])
             (mkResource [("b", ValueInt 2); ("b", ValueInt 3);
                          ("a", ValueInt 4)]) true))).
Proof.
  apply (MergeResource_keeps_keys_unique
           (mkResource [("a"%string, ValueInt 1)])
           (mkResource [("b"%string, ValueInt 2); ("b"%string, ValueInt 3);
                        ("a"%string, ValueInt 4)]) true).
  apply NoDup_singleton.
Defined.

(** X3. The merged resource has exactly the keys of [to] and of [from], and
    at least as many entries as [to] and at most as many as both together:
    a merge never removes an attribute. *)
Theorem MergeResource_key_set (to from : Resource) (overrideTo : bool) :
  (forall k,
     k ∈ keys (Attributes (MergeResource to from overrideTo))
     <-> k ∈ keys (Attributes to) \/ k ∈ keys (Attributes from))
  /\ Len (Attributes to) <= Len (Attributes (MergeResource to from overrideTo))
     <= Len (Attributes to) + Len (Attributes from).
Proof.
  rewrite MergeResource_Attributes. unfold Len.
  generalize (Attributes to) as toAttr.
  induction (Attributes from) as [|[k0 v0] from' IH]; intros toAttr.
  - cbn. split; [|lia]. intros k. unfold keys. cbn.
    rewrite elem_of_nil. naive_solver.
  - cbn [fold_left fst snd].
    destruct (IH (if overrideTo then upsert toAttr k0 v0
                  else match pcommon.Get toAttr k0 with
                       | Some _ => toAttr
                       | None => upsert toAttr k0 v0
                       end)) as [IHk IHl].
    pose proof (merge_step_length overrideTo toAttr k0 v0) as Hl.
    split.
    + intros k. rewrite IHk, merge_step_keys. unfold keys. cbn.
      rewrite elem_of_cons. naive_solver.
    + cbn [length]. lia.
Qed.

(** X4. A merge without override only appends: the attributes of [to]
    stay where they are with their values, and what comes after them are
    entries of [from] for keys [to] did not have, each key once, with the
    first value [from] has for it. *)
Theorem MergeResource_keep_appends (to from : Resource) :
  exists added,
    Attributes (MergeResource to from false) = Attributes to ++ added
    /\ NoDup (keys added)
    /\ (forall k v, (k, v) ∈ added ->
          pcommon.Get (Attributes to) k = None
          /\ pcommon.Get (Attributes from) k = Some v).
Proof.
  rewrite MergeResource_Attributes.
  destruct to as [toAttr], from as [from]. cbn [Attributes].
  revert toAttr. induction from as [|[k0 v0] from IH]; intros toAttr.
  - exists []. cbn. rewrite app_nil_r. split; [done|].
    split; [apply NoDup_nil_2|]. intros k v Hin. by apply elem_of_nil in Hin.
  - cbn [fold_left fst snd]. destruct (pcommon.Get toAttr k0) as [x0|] eqn:Hk0.
    + destruct (IH toAttr) as (added & Heq & Hnd & Hadded).
      exists added. split; [done|]. split; [done|].
      intros k v Hin. destruct (Hadded k v Hin) as [Hto Hfrom].
      split; [done|]. cbn. case_decide; [subst; congruence|done].
    + rewrite upsert_absent by done.
      destruct (IH (toAttr ++ [(k0, v0)])) as (added & Heq & Hnd & Hadded).
      exists ((k0, v0) :: added).
      split; [by rewrite Heq, <- app_assoc|].
      assert (forall k v, (k, v) ∈ added ->
                pcommon.Get toAttr k = None /\ k0 <> k) as Hfresh.
      { intros k v Hin. destruct (Hadded k v Hin) as [Hto _].
        rewrite Get_app in Hto. destruct (pcommon.Get toAttr k); [done|].
        split; [done|]. cbn in Hto. by case_decide. }
      split.
      * unfold keys. cbn. apply NoDup_cons. split; [|done].
        intros Hin. apply list_elem_of_fmap in Hin as ([k v] & -> & Hin).
        by destruct (Hfresh k v Hin).
      * intros k v Hin. apply elem_of_cons in Hin as [[= -> ->]|Hin].
        -- split; [done|]. cbn. by rewrite decide_True.
        -- destruct (Hfresh k v Hin) as [Hto Hne].
           split; [done|]. cbn. rewrite decide_False by done.
           by destruct (Hadded k v Hin).
Qed.

Lemma merge_keep_present (from toAttr : Map) :
  (forall k, k ∈ keys from -> k ∈ keys toAttr) ->
  fold_left
    (fun toAttr kv =>
       match pcommon.Get toAttr kv.1 with
       | Some _ => toAttr
       | None => upsert toAttr kv.1 kv.2
       end) from toAttr
  = toAttr.
Proof.
  induction from as [|[k0 v0] from IH]; intros Hall; [done|].
  cbn [fold_left fst snd].
  assert (is_Some (pcommon.Get toAttr k0)) as [v ->].
  { apply Get_Some_keys, Hall. unfold keys. cbn. left. }
  apply IH. intros k Hk. apply Hall. unfold keys in *. cbn. by right.
Qed.

(** X5. Merging the same resource a second time without override changes
    nothing. *)
Theorem MergeResource_keep_idempotent (to from : Resource) :
  MergeResource (MergeResource to from false) from false
  = MergeResource to from false.
Proof.
  assert (forall r1 r2 : Resource, Attributes r1 = Attributes r2 -> r1 = r2)
    as Hext by (intros [a1] [a2]; cbn; congruence).
  apply Hext. rewrite (MergeResource_Attributes (MergeResource to from false)).
  apply merge_keep_present. intros k Hk.
  apply Get_Some_keys. rewrite MergeResource_keep_Get.
  apply Get_Some_keys in Hk as [v Hv]. rewrite Hv.
  by destruct (pcommon.Get (Attributes to) k).
Qed.

(** X6. The order in which two resources are merged without override only
    matters for keys they share: when no key has a value in both [a] and
    [b], merging [a] then [b] into [acc] and merging [b] then [a] give the
    same value for every key. *)
Theorem MergeResource_keep_commutes (acc a b : Resource) :
  (forall k, pcommon.Get (Attributes a) k = None
             \/ pcommon.Get (Attributes b) k = None) ->
  forall k,
    pcommon.Get
      (Attributes (MergeResource (MergeResource acc a false) b false)) k
    = pcommon.Get
        (Attributes (MergeResource (MergeResource acc b false) a false)) k.
Proof.
  intros Hdisjoint k. rewrite !MergeResource_keep_Get.
  destruct (pcommon.Get (Attributes acc) k); [done|].
  destruct (Hdisjoint k) as [-> | ->];
    by destruct (pcommon.Get (Attributes _) k).
Qed.

Lemma MergeResource_keep_commutes_witness :
  pcommon.Get
    (Attributes
       (MergeResource
          (MergeResource NewResource (mkResource [("a", ValueInt 1)]) false)
          (mkResource [("b", ValueInt 2)]) false)) "b"
  = pcommon.Get
      (Attributes
         (MergeResource
            (MergeResource NewResource (mkResource [("b", ValueInt 2)]) false)
            (mkResource [("a", ValueInt 1)]) false)) "b".
Proof.
  apply (MergeResource_keep_commutes NewResource
           (mkResource [("a"%string, ValueInt 1)])
           (mkResource [("b"%string, ValueInt 2)])).
  intros k. cbn. destruct (decide ("a"%string = k)) as [<-|Hne].
  - right. reflexivity.
  - left. reflexivity.
Defined.

(** X7. The two merge modes mirror each other: when [to] has no key twice,
    merging [from] into [to] without override gives every key the value
    that merging [to] into [from] with override gives it. *)
Theorem MergeResource_modes_mirror (to from : Resource) :
  NoDup (keys (Attributes to)) ->
  forall k,
    pcommon.Get (Attributes (MergeResource to from false)) k
    = pcommon.Get (Attributes (MergeResource from to true)) k.
Proof.
  intros Hnd k. rewrite MergeResource_keep_Get.
  unfold MergeResource, IsEmptyResource, Len.
  destruct from as [from], to as [to]; cbn [Attributes] in *.
  case_bool_decide as Hlen.
  - by assert (to = []) as -> by (destruct to; [done|simpl in Hlen; lia]).
  - cbn [Attributes]. by rewrite merge_override_Get, GetLast_NoDup.
Qed.

Lemma MergeResource_modes_mirror_witness :
  pcommon.Get
    (Attributes
       (MergeResource (mkResource [("k", ValueStr "a")])
          (mkResource [("k", ValueStr "b"); ("j", ValueStr "c")]) false)) "k"
  = pcommon.Get
      (Attributes
         (MergeResource
            (mkResource [("k", ValueStr "b"); ("j", ValueStr "c")])
            (mkResource [("k", ValueStr "a")]) true)) "k".
Proof.
  apply (MergeResource_modes_mirror (mkResource [("k"%string, ValueStr "a")])
           (mkResource [("k"%string, ValueStr "b");
                        ("j"%string, ValueStr "c")])).
  apply NoDup_singleton.
Defined.

(** ** Filtering attributes, continued *)

Lemma RemoveIf_dropEntry_all_kept (attributesToKeep : gset string) (am : Map)
    (dropped : slice string) :
  (forall k, k ∈ keys am -> k ∈ attributesToKeep) ->
  RemoveIf (dropEntry attributesToKeep) am dropped = (am, dropped).
Proof.
  unfold keys. induction am as [|[k v] am IH]; intros Hall; [done|].
  cbn [RemoveIf]. unfold dropEntry at 1.
  rewrite bool_decide_eq_true_2 by (apply Hall; cbn; left).
  cbn [negb]. rewrite IH; [done|].
  intros k' Hk'. apply Hall. cbn. by right.
Qed.

Lemma RemoveIf_dropEntry_nonnil (attributesToKeep : gset string) (am : Map)
    (dropped : slice string) (k : string) :
  k ∈ keys am -> k ∉ attributesToKeep ->
  exists l, (RemoveIf (dropEntry attributesToKeep) am dropped).2 = Some l
            /\ l <> [].
Proof.
  intros Hin Hout.
  pose proof (proj2 (RemoveIf_dropEntry attributesToKeep am dropped)) as Hel.
  assert (k ∈ filter (fun k => k ∉ attributesToKeep) (keys am)) as Hk
    by (by apply list_elem_of_filter).
  destruct ((RemoveIf (dropEntry attributesToKeep) am dropped).2)
    as [l|] eqn:Hres; cbn in Hel.
  - exists l. split; [done|]. intros ->.
    symmetry in Hel. apply app_eq_nil in Hel as [_ Hnil].
    rewrite Hnil in Hk. by apply elem_of_nil in Hk.
  - symmetry in Hel. apply app_eq_nil in Hel as [_ Hnil].
    rewrite Hnil in Hk. by apply elem_of_nil in Hk.
Qed.

Lemma keys_filter (keep : gset string) (am : Map) :
  keys (filter (fun kv => kv.1 ∈ keep) am)
  = filter (fun k => k ∈ keep) (keys am).
Proof.
  unfold keys. induction am as [|[k v] am IH]; [done|].
  cbn [fmap list_fmap]. destruct (decide (k ∈ keep)).
  - rewrite !filter_cons_True by done. cbn. by f_equal.
  - by rewrite !filter_cons_False by done.
Qed.

(** X8. Filtering is idempotent: filtering the filtered map again with the
    same set removes nothing and returns a nil slice. *)
Theorem filterAttributes_idempotent (am : Map)
    (attributesToKeep : gset string) :
  filterAttributes (filterAttributes am attributesToKeep).2 attributesToKeep
  = (nil_slice, (filterAttributes am attributesToKeep).2).
Proof.
  rewrite !filterAttributes_eq.
  destruct (decide (attributesToKeep = ∅)) as [->|Hne]; [done|].
  cbn [snd].
  rewrite RemoveIf_dropEntry_all_kept; [done|].
  intros k Hk.
  rewrite (proj1 (RemoveIf_dropEntry attributesToKeep am nil_slice)) in Hk.
  apply list_elem_of_fmap in Hk as ([k' v] & -> & Hk).
  by apply list_elem_of_filter in Hk as [? _].
Qed.

(** X9. Filtering loses no key without reporting it: the keys that stay
    together with the keys returned as dropped are the keys the map had, and
    when the set is not empty every key that stays is in it and every
    reported key is not. *)
Theorem filterAttributes_partition (am : Map)
    (attributesToKeep : gset string) :
  keys (filterAttributes am attributesToKeep).2
  ++ slice_elems (filterAttributes am attributesToKeep).1
  ≡ₚ keys am
  /\ (attributesToKeep <> ∅ ->
      Forall (fun k => k ∈ attributesToKeep)
        (keys (filterAttributes am attributesToKeep).2)
      /\ Forall (fun k => k ∉ attributesToKeep)
           (slice_elems (filterAttributes am attributesToKeep).1)).
Proof.
  rewrite filterAttributes_eq.
  destruct (decide (attributesToKeep = ∅)) as [->|Hne].
  - cbn. rewrite app_nil_r. done.
  - cbn [fst snd].
    destruct (RemoveIf_dropEntry attributesToKeep am nil_slice) as [-> ->].
    cbn [slice_elems nil_slice default app].
    rewrite keys_filter.
    split; [apply filter_app_complement|]. intros _.
    split; apply Forall_forall; intros k Hk;
      by apply list_elem_of_filter in Hk as [? _].
Qed.

Lemma filterAttributes_partition_witness :
  Forall (fun k => k ∈ ({["a"%string; "c"%string]} : gset string))
    (keys
       (filterAttributes
          [("a", ValueInt 1); ("b", ValueInt 2); ("c", ValueInt 3)]
          {["a"%string; "c"%string]}).2).
Proof.
  apply (filterAttributes_partition
           [("a"%string, ValueInt 1); ("b"%string, ValueInt 2);
            ("c"%string, ValueInt 3)] {["a"%string; "c"%string]}).
  intros H. assert ("a"%string ∈ (∅ : gset string)) as Hin
    by (rewrite <- H; set_solver).
  set_solver.
Defined.

(** X10. The slice [filterAttributes] returns is nil exactly when nothing
    was removed, that is when the set is empty or holds every key of the
    map; it is never an allocated slice without elements. *)
Theorem filterAttributes_nil_iff (am : Map) (attributesToKeep : gset string) :
  ((filterAttributes am attributesToKeep).1 = nil_slice
   <-> attributesToKeep = ∅
       \/ forall k, k ∈ keys am -> k ∈ attributesToKeep)
  /\ (filterAttributes am attributesToKeep).1 <> Some [].
Proof.
  rewrite filterAttributes_eq.
  destruct (decide (attributesToKeep = ∅)) as [->|Hne]; cbn [fst].
  { split; [|done]. split; [by left|done]. }
  destruct (decide (Forall (fun k => k ∈ attributesToKeep) (keys am)))
    as [Hall|Hsome].
  - rewrite RemoveIf_dropEntry_all_kept
      by (intros k Hk; by eapply Forall_forall in Hall).
    cbn. split; [|done]. split; [|done]. intros _. right.
    intros k Hk. by eapply Forall_forall in Hall.
  - apply not_Forall_Exists in Hsome; [|apply _].
    apply Exists_exists in Hsome as (k & Hin & Hout).
    destruct (RemoveIf_dropEntry_nonnil attributesToKeep am nil_slice k
                Hin Hout) as (l & -> & Hl).
    split; [|congruence]. split; [done|]. intros [?|Hall]; [done|].
    exfalso. apply Hout. by apply Hall.
Qed.

(** ** Conversion to plain values, continued *)

Lemma GetLast_Some_keys (m : Map) (k : string) :
  is_Some (GetLast m k) <-> k ∈ keys m.
Proof.
  unfold keys. induction m as [|[k0 v0] m IH]; simpl.
  - rewrite elem_of_nil. split; [by intros [? [=]]|done].
  - rewrite elem_of_cons, <- IH.
    destruct (GetLast m k) as [x|].
    + split; [right|]; by eexists.
    + case_decide as Hk; subst.
      * split; [by left|by eexists].
      * split; [by intros [? [=]]|]. intros [?|[? [=]]]. congruence.
Qed.

Lemma list_to_set_size (l : list string) :
  (size (list_to_set l : gset string) <= length l)%nat
  /\ (size (list_to_set l : gset string) = length l -> NoDup l).
Proof.
  induction l as [|x l [IHle IHnd]]; cbn [length].
  - rewrite list_to_set_nil, size_empty. split; [lia|]. intros _.
    apply NoDup_nil_2.
  - rewrite list_to_set_cons. destruct (decide (x ∈ l)) as [Hin|Hout].
    + rewrite subseteq_union_1_L
        by (apply singleton_subseteq_l, elem_of_list_to_set; done).
      split; [lia|]. intros Heq. lia.
    + rewrite size_union
        by (apply disjoint_singleton_l, not_elem_of_list_to_set; done).
      rewrite size_singleton. split; [lia|]. intros Heq.
      apply NoDup_cons. split; [done|]. apply IHnd. lia.
Qed.

(** X11. The Go map [AttributesToMap] builds has exactly the keys of the
    attribute map.  It has as many entries as the attribute map exactly when
    no key occurs twice there; otherwise it has fewer, the later entry of a
    repeated key having replaced the earlier one. *)
Theorem AttributesToMap_keys (m : Map) :
  dom (AttributesToMap m) = list_to_set (keys m)
  /\ (size (AttributesToMap m) <= length m)%nat
  /\ (size (AttributesToMap m) = length m <-> NoDup (keys m)).
Proof.
  assert (dom (AttributesToMap m) = list_to_set (keys m)) as Hdom.
  { apply set_eq. intros k.
    rewrite elem_of_dom, AttributesToMap_lookup, elem_of_list_to_set.
    rewrite <- GetLast_Some_keys, fmap_is_Some. done. }
  assert (length (keys m) = length m) as Hlen
    by (unfold keys; apply length_fmap).
  split; [done|].
  rewrite <- size_dom, Hdom, <- Hlen.
  destruct (list_to_set_size (keys m)) as [Hle Hnd].
  split; [done|]. split; [done|]. intros Hnodup.
  by apply size_list_to_set.
Qed.

Lemma getSerializableArray_inj_on (l1 l2 : Slice) :
  Forall
    (fun x => forall y, flatValue x = true -> flatValue y = true ->
                        UnwrapAttribute x = UnwrapAttribute y -> x = y) l1 ->
  forallb flatValue l1 = true -> forallb flatValue l2 = true ->
  getSerializableArray l1 = getSerializableArray l2 -> l1 = l2.
Proof.
  rewrite !getSerializableArray_eq. intros Hall Hf1 Hf2 Heq.
  assert (UnwrapAttribute <$> l1 = UnwrapAttribute <$> l2) as Hmap.
  { unfold nil_slice in Heq. destruct l1, l2; congruence. }
  clear Heq. revert l2 Hf2 Hmap.
  induction Hall as [|x l1 Hx Hall IH]; intros [|y l2] Hf2 Hmap; try done.
  cbn in Hf1, Hf2, Hmap.
  apply andb_prop in Hf1 as [Hfx Hf1], Hf2 as [Hfy Hf2].
  injection Hmap as Hxy Hrest.
  f_equal; [by apply Hx|by apply IH].
Qed.

Lemma UnwrapAttribute_inj_flat (v1 v2 : Value) :
  flatValue v1 = true -> flatValue v2 = true ->
  UnwrapAttribute v1 = UnwrapAttribute v2 -> v1 = v2.
Proof.
  revert v2. induction v1 as [|s|i|d|b|m _|l IH|bs] using Value_nested_ind;
    intros v2 Hf1 Hf2 Heq; try done.
  - destruct v2; try done. cbn in Heq. congruence.
  - destruct v2; try done. cbn in Heq. congruence.
  - destruct v2; try done. cbn in Heq. congruence.
  - destruct v2; try done. cbn in Heq. congruence.
  - destruct v2 as [| | | | | |l2|]; try done.
    rewrite !UnwrapAttribute_slice in Heq. injection Heq as Heq.
    f_equal. by apply getSerializableArray_inj_on.
Qed.

(** X12. On values built from the four scalar kinds and arrays, at any
    depth, [UnwrapAttribute] loses nothing: two such values with the same
    plain form are the same value. *)
Theorem UnwrapAttribute_flat_injective (v1 v2 : Value) :
  flatValue v1 = true -> flatValue v2 = true ->
  UnwrapAttribute v1 = UnwrapAttribute v2 -> v1 = v2.
Proof. apply UnwrapAttribute_inj_flat. Qed.

Lemma UnwrapAttribute_flat_injective_witness :
  ValueSlice [ValueInt 1; ValueSlice [ValueStr "x"]]
  = ValueSlice [ValueInt 1; ValueSlice [ValueStr "x"]].
Proof.
  apply (UnwrapAttribute_flat_injective
           (ValueSlice [ValueInt 1; ValueSlice [ValueStr "x"]])
           (ValueSlice [ValueInt 1; ValueSlice [ValueStr "x"]]));
    reflexivity.
Defined.

Lemma Get_list_to_map (m : Map) (k : string) :
  (list_to_map m : gmap string Value) !! k = pcommon.Get m k.
Proof.
  induction m as [|[k0 v0] m IH]; simpl; [done|].
  case_decide as Hk.
  - subst. by rewrite lookup_insert_eq.
  - by rewrite lookup_insert_ne.
Qed.

(** X13. For attribute maps without repeated keys whose values are scalars
    and arrays, the plain form determines the attributes: two such maps
    that [AttributesToMap] sends to the same Go map have the same entries,
    up to their order. *)
Theorem AttributesToMap_injective (m1 m2 : Map) :
  NoDup (keys m1) -> NoDup (keys m2) ->
  Forall (fun kv => flatValue kv.2 = true) m1 ->
  Forall (fun kv => flatValue kv.2 = true) m2 ->
  AttributesToMap m1 = AttributesToMap m2 ->
  m1 ≡ₚ m2.
Proof.
  intros Hnd1 Hnd2 Hf1 Hf2 Heq.
  assert (forall k, pcommon.Get m1 k = pcommon.Get m2 k) as HGet.
  { intros k. pose proof (f_equal (fun mp => mp !! k) Heq) as Hk.
    cbn in Hk. rewrite !AttributesToMap_lookup, !GetLast_NoDup in Hk by done.
    destruct (pcommon.Get m1 k) as [x1|] eqn:H1,
      (pcommon.Get m2 k) as [x2|] eqn:H2; try done.
    f_equal. injection Hk as Hk.
    apply UnwrapAttribute_inj_flat; [| |done].
    - apply Get_elem_of in H1.
      by apply (proj1 (Forall_forall _ _) Hf1 (k, x1)).
    - apply Get_elem_of in H2.
      by apply (proj1 (Forall_forall _ _) Hf2 (k, x2)). }
  rewrite <- (map_to_list_to_map (M:=gmap string) m1) by done.
  rewrite <- (map_to_list_to_map (M:=gmap string) m2) by done.
  assert ((list_to_map m1 : gmap string Value) = list_to_map m2) as ->.
  { apply map_eq. intros k. by rewrite !Get_list_to_map. }
  done.
Qed.

Lemma AttributesToMap_injective_witness :
  [("a"%string, ValueInt 1); ("b"%string, ValueSlice [ValueBool true])]
  ≡ₚ [("b"%string, ValueSlice [ValueBool true]); ("a"%string, ValueInt 1)].
Proof.
  apply (AttributesToMap_injective
           [("a"%string, ValueInt 1);
            ("b"%string, ValueSlice [ValueBool true])]
           [("b"%string, ValueSlice [ValueBool true]);
            ("a"%string, ValueInt 1)]).
  - apply NoDup_cons. split; [|apply NoDup_singleton].
    intros Hin. apply list_elem_of_singleton in Hin. discriminate.
  - apply NoDup_cons. split; [|apply NoDup_singleton].
    intros Hin. apply list_elem_of_singleton in Hin. discriminate.
  - repeat constructor.
  - repeat constructor.
  - vm_compute. reflexivity.
Defined.

(** ** The provider, continued *)

Section ProviderFacts.

Context {World : Type} (Now : World -> Z) {Logger : Type}.

Implicit Types (p : @ResourceProvider World Logger) (env : @Env World Logger).
Implicit Types (ds : list (@Detector World)) (ctx : context.Context).

Lemma mergeAll_NoDup (rs : list (Resource * string)) :
  NoDup (keys (Attributes (mergeAll rs))).
Proof.
  unfold mergeAll.
  assert (NoDup (keys (Attributes NewResource))) as Hnd
    by apply NoDup_nil_2.
  revert Hnd. generalize NewResource as acc.
  induction rs as [|x rs IH]; intros acc Hnd; [done|].
  cbn [fold_left]. apply IH. by apply MergeResource_NoDup.
Qed.

Lemma filterAttributes_NoDup (am : Map) (keep : gset string) :
  NoDup (keys am) -> NoDup (keys (filterAttributes am keep).2).
Proof.
  intros Hnd. rewrite filterAttributes_eq. case_decide; [done|]. cbn [snd].
  rewrite (proj1 (RemoveIf_dropEntry keep am nil_slice)), keys_filter.
  by apply NoDup_filter.
Qed.

(** X14. The resource [Get] returns never has a key twice, whatever the
    detectors return, and when the provider has a non-empty set of
    attributes to keep every key of the returned resource is in that set. *)
Theorem Get_resource_keys (lg : Logger) (t : Z) (keep : gset string) ds
    ctx (client : http.Client) env :
  exists res url p1 env1,
    Get Now (NewResourceProvider lg t keep ds) ctx client env
    = (Some (res, url, None), p1, env1)
    /\ NoDup (keys (Attributes res))
    /\ (keep <> ∅ -> Forall (fun k => k ∈ keep) (keys (Attributes res))).
Proof.
  eexists _, _, _, _. split; [by apply Get_first|].
  cbn [detection resource Attributes attributesToKeep NewResourceProvider
       detectors]. split.
  - apply filterAttributes_NoDup, mergeAll_NoDup.
  - intros Hne. rewrite filterAttributes_eq, decide_False by done. cbn [snd].
    rewrite (proj1 (RemoveIf_dropEntry keep _ nil_slice)), keys_filter.
    apply Forall_forall. intros k Hk.
    by apply list_elem_of_filter in Hk as [? _].
Qed.

(** X15. The schema URL [Get] returns is the first non-empty schema URL
    among those of the detectors that succeeded, in detector order, and the
    empty string when there is none. *)
Theorem Get_schemaURL_first_nonempty (lg : Logger) (t : Z)
    (keep : gset string) ds ctx (client : http.Client) env :
  exists res p1 env1,
    Get Now (NewResourceProvider lg t keep ds) ctx client env
    = (Some
         (res,
          firstNonEmpty
            (successes
               (detectAll
                  (context.WithTimeout (Now (world env)) ctx
                     (http.Timeout client)) ds (world env)).1).*2,
          None), p1, env1).
Proof.
  eexists _, _, _. rewrite Get_first by done.
  unfold triple, detection. cbn [resource schemaURL err detectors
    attributesToKeep NewResourceProvider].
  by rewrite mergeAllSchemaURLs_firstNonEmpty.
Qed.

(** X16. For any number of detectors, the value the resource returned by
    [Get] holds for a key is the value of the first detector, in
    configured order, that succeeded and has the key, provided the key
    passes the attribute filter; a key that does not pass has no value. *)
Theorem Get_precedence (lg : Logger) (t : Z) (keep : gset string) ds
    ctx (client : http.Client) env :
  exists res url p1 env1,
    Get Now (NewResourceProvider lg t keep ds) ctx client env
    = (Some (res, url, None), p1, env1)
    /\ forall k,
         pcommon.Get (Attributes res) k
         = if decide (keep = ∅ \/ k ∈ keep)
           then firstValue
                  (successes
                     (detectAll
                        (context.WithTimeout (Now (world env)) ctx
                           (http.Timeout client)) ds (world env)).1) k
           else None.
Proof.
  eexists _, _, _, _. split; [by apply Get_first|]. intros k.
  cbn [detection resource Attributes attributesToKeep NewResourceProvider
       detectors].
  rewrite Get_filterAttributes. unfold mergeAll. by rewrite merge_all_Get.
Qed.

Lemma successes_all_fail (outs : list (Resource * string * option error)) :
  Forall (fun out => is_Some out.2) outs ->
  successes outs = [] /\ length (failures outs) = length outs.
Proof.
  induction 1 as [|[[r s] e] outs [e' He] _ [IH1 IH2]]; [done|].
  cbn in He. subst. unfold successes, failures in *. cbn.
  rewrite IH1. split; [done|]. by f_equal.
Qed.

(** X17. When every detector fails, and so also when no detector is
    configured, [Get] still succeeds: it returns an empty resource, an
    empty schema URL and a nil error, and the log has one more warning for
    each detector. *)
Theorem Get_all_detectors_fail (lg : Logger) (t : Z) (keep : gset string) ds
    ctx (client : http.Client) env :
  Forall (fun out => is_Some out.2)
    (detectAll
       (context.WithTimeout (Now (world env)) ctx (http.Timeout client))
       ds (world env)).1 ->
  (Get Now (NewResourceProvider lg t keep ds) ctx client env).1.1
  = Some (mkResource [], EmptyString, None)
  /\ length
       (warnings (Get Now (NewResourceProvider lg t keep ds) ctx client env).2)
     = (length (warnings env) + length ds)%nat.
Proof.
  intros Hfail. apply successes_all_fail in Hfail as [Hnone Hlen].
  rewrite detectAll_length in Hlen.
  rewrite Get_first by done. cbn [fst snd]. split.
  - unfold triple, detection. cbn [resource schemaURL err detectors
      attributesToKeep NewResourceProvider]. rewrite Hnone.
    cbn. rewrite filterAttributes_eq. by case_decide.
  - cbn [detectors NewResourceProvider logger]. destruct env as [w lgs].
    rewrite (warnings_detectionLog w). rewrite length_app, length_fmap.
    by rewrite Hlen.
Qed.

End ProviderFacts.

Lemma Get_all_detectors_fail_witness :
  (Get Scenario.Now
     (NewResourceProvider tt 5 ∅ [Scenario.failing "a"; Scenario.failing "b"])
     context.Background (http.mkClient 7) Scenario.env0).1.1
  = Some (mkResource [], EmptyString, None).
Proof.
  apply (Get_all_detectors_fail Scenario.Now tt 5 ∅
           [Scenario.failing "a"; Scenario.failing "b"]
           context.Background (http.mkClient 7) Scenario.env0).
  repeat constructor; by eexists.
Defined.

Section GateFacts.

Context {World : Type} (Now : World -> Z) {Logger : Type}.

Implicit Types (p : @ResourceProvider World Logger) (env : @Env World Logger).



End GateFacts.


(** ** Counting calls to detectors *)

Section TracingFacts.

Context {World : Type} (Now : World -> Z) {Logger : Type}.

Lemma detectAll_traced (ctx : context.Context) (ds : list (@Detector World))
    (f : nat -> nat) (w : World) (tr : list nat) :
  detectAll ctx (imap (fun i => traced (f i)) ds) (w, tr)
  = ((detectAll ctx ds w).1,
     ((detectAll ctx ds w).2, tr ++ (f <$> seq 0 (length ds)))).
Proof.
  revert f w tr. induction ds as [|d ds IH]; intros f w tr.
  - cbn. by rewrite app_nil_r.
  - rewrite imap_cons.
    change (imap ((fun i => traced (f i)) ∘ S) ds)
      with (imap (fun i => traced ((f ∘ S) i)) ds).
    cbn [detectAll traced Detect fst snd length].
    destruct (Detect d ctx w) as [out w'].
    rewrite (IH (f ∘ S) w' (tr ++ [f 0%nat])).
    destruct (detectAll ctx ds w') as [outs w'']. cbn [fst snd].
    rewrite <- app_assoc. cbn [seq fmap list_fmap app].
    by rewrite <- seq_shift, <- list_fmap_compose.
Qed.

(** X19. Exactly once: instrument every detector with a call log that
    records its position.  After any number of [Get] calls on a provider
    made by [NewResourceProvider], at least one, the log holds every
    position once, in configured order: each detector was called a single
    time, by the first [Get]. *)
Theorem Get_calls_each_detector_once (lg : Logger) (t : Z)
    (keep : gset string) (ds : list (@Detector World))
    (ctx : context.Context) (client : http.Client)
    (calls : list (context.Context * http.Client)) (w : World)
    (lgs : list (@LogEntry Logger)) :
  (world
     (GetAll (fun wt => Now wt.1) ((ctx, client) :: calls)
        (NewResourceProvider lg t keep (tracedAll ds))
        (mkEnv (w, []) lgs)).2).2
  = seq 0 (length ds).
Proof.
  cbn [GetAll]. rewrite Get_first by done.
  erewrite GetAll_again; [|reflexivity|reflexivity].
  cbn [snd world detectors NewResourceProvider fst]. unfold tracedAll.
  rewrite (detectAll_traced _ ds id). cbn [snd app].
  by rewrite list_fmap_id.
Qed.

End TracingFacts.

(** ** The detector registry, continued *)

Section RegistryFacts2.

Context {World DetectorConfig Logger : Type}.

Implicit Types (f : @ResourceProviderFactory World DetectorConfig Logger).
Implicit Types (params : @ProcessorCreateSettings Logger).
Implicit Types (cfgs : @ResourceDetectorConfig DetectorConfig).
Implicit Types (ds acc : list (@Detector World)) (w : World).

Lemma getDetectors_loop_cons f params cfgs (t : DetectorType)
    (types : list DetectorType) acc w :
  getDetectors_loop f params cfgs (t :: types) acc w
  = match factory_detectors f !! t with
    | None => (Err (invalidDetectorKey t), w)
    | Some fac =>
        match fac params (GetConfigFromType cfgs t) w with
        | (Err e, w') => (Err (failedCreatingDetector t e), w')
        | (Ok d, w') =>
            getDetectors_loop f params cfgs types (acc ++ [d]) w'
        end
    end.
Proof. reflexivity. Qed.

Lemma getDetectors_loop_unknown f params cfgs (types : list DetectorType)
    (t : DetectorType) acc w :
  t ∈ types -> factory_detectors f !! t = None ->
  exists e w', getDetectors_loop f params cfgs types acc w = (Err e, w').
Proof.
  intros Hin Hnone. revert acc w.
  induction types as [|t0 types IH]; intros acc w.
  - by apply elem_of_nil in Hin.
  - rewrite getDetectors_loop_cons.
    destruct (factory_detectors f !! t0) as [fac|] eqn:Hfac;
      [|do 2 eexists; reflexivity].
    destruct (fac params (GetConfigFromType cfgs t0) w) as [[d|e] w'];
      [|do 2 eexists; reflexivity].
    apply elem_of_cons in Hin as [->|Hin];
      [unfold DetectorFactory in *; congruence|].
    by apply IH.
Qed.

(** X20. A request that names a detector type the registry does not have
    fails, wherever the type stands in the request: [getDetectors] returns
    an error, and so [CreateResourceProvider] returns no provider. *)
Theorem getDetectors_rejects_unknown_type f params cfgs
    (types : list DetectorType) (t : DetectorType) w (timeout : Z)
    (attributes : list string) :
  t ∈ types -> factory_detectors f !! t = None ->
  exists e w',
    getDetectors f params cfgs types w = (Err e, w')
    /\ CreateResourceProvider f params timeout attributes cfgs types w
       = (Err e, w').
Proof.
  intros Hin Hnone.
  destruct (getDetectors_loop_unknown f params cfgs types t [] w Hin Hnone)
    as (e & w' & Hloop).
  exists e, w'. unfold CreateResourceProvider, getDetectors.
  by rewrite Hloop.
Qed.

Lemma getDetectors_loop_built f params cfgs (types : list DetectorType)
    acc w ds w' :
  getDetectors_loop f params cfgs types acc w = (Ok ds, w') ->
  exists built,
    ds = acc ++ built
    /\ Forall2
         (fun t d =>
            exists fac wi wi',
              factory_detectors f !! t = Some fac
              /\ fac params (GetConfigFromType cfgs t) wi = (Ok d, wi'))
         types built.
Proof.
  revert acc w. induction types as [|t0 types IH]; intros acc w.
  - cbn. intros [= <- <-]. exists []. by rewrite app_nil_r.
  - rewrite getDetectors_loop_cons.
    destruct (factory_detectors f !! t0) as [fac|] eqn:Hfac; [|done].
    destruct (fac params (GetConfigFromType cfgs t0) w) as [[d|e] w1]
      eqn:Hmake; [|done].
    intros Hrest. apply IH in Hrest as (built & -> & Hall).
    exists (d :: built). split; [by rewrite <- app_assoc|].
    constructor; [|done]. by exists fac, w, w1.
Qed.

(** X21. When [getDetectors] succeeds, the detectors it returns line up
    with the requested types: the detector at each position is one the
    constructor registered for the type at that position returned. *)
Theorem getDetectors_in_request_order f params cfgs
    (types : list DetectorType) w ds w' :
  getDetectors f params cfgs types w = (Ok ds, w') ->
  Forall2
    (fun t d =>
       exists fac wi wi',
         factory_detectors f !! t = Some fac
         /\ fac params (GetConfigFromType cfgs t) wi = (Ok d, wi'))
    types ds.
Proof.
  unfold getDetectors. intros Hok.
  by apply getDetectors_loop_built in Hok as (built & -> & Hall).
Qed.

End RegistryFacts2.

Lemma getDetectors_rejects_unknown_type_witness :
  exists e w',
    getDetectors Scenario.registry Scenario.params Scenario.configs
      ["one"%string; "two"%string; "nope"%string] []
    = (Err e, w').
Proof.
  destruct (getDetectors_rejects_unknown_type Scenario.registry
              Scenario.params Scenario.configs
              ["one"%string; "two"%string; "nope"%string] "nope" [] 5 [])
    as (e & w' & Hget & _).
  - set_solver.
  - reflexivity.
  - by exists e, w'.
Defined.

Lemma getDetectors_in_request_order_witness :
  Forall2
    (fun t d =>
       exists fac wi wi',
         factory_detectors Scenario.registry !! t = Some fac
         /\ fac Scenario.params
              (GetConfigFromType Scenario.configs t) wi = (Ok d, wi'))
    ["two"%string; "one"%string] [Scenario.D2; Scenario.D1].
Proof.
  apply (getDetectors_in_request_order Scenario.registry Scenario.params
           Scenario.configs ["two"%string; "one"%string] []
           [Scenario.D2; Scenario.D1]
           [context.mkContext (Some 2); context.mkContext (Some 1)]).
  reflexivity.
Defined.

Lemma Get_resource_keys_witness :
  exists res url p1 env1,
    Get Scenario.Now
      (NewResourceProvider tt 5 {["k"%string]} [Scenario.D1; Scenario.D2])
      context.Background (http.mkClient 7) Scenario.env0
    = (Some (res, url, None), p1, env1)
    /\ Forall (fun k => k ∈ ({["k"%string]} : gset string))
         (keys (Attributes res)).
Proof.
  destruct (Get_resource_keys Scenario.Now tt 5 {["k"%string]}
              [Scenario.D1; Scenario.D2] context.Background
              (http.mkClient 7) Scenario.env0)
    as (res & url & p1 & env1 & HGet & _ & Hkeep).
  exists res, url, p1, env1. split; [exact HGet|].
  apply Hkeep. intros H.
  assert ("k"%string ∈ (∅ : gset string)) as Hin
    by (rewrite <- H; set_solver).
  set_solver.
Defined.

(** ** Merging and converting *)

(** X22. Converting commutes with merging: when neither resource repeats a
    key, the plain form of their merge without override is the union of
    their plain forms in which the entries of [to] win. *)
Theorem AttributesToMap_MergeResource (to from : Resource) :
  NoDup (keys (Attributes to)) -> NoDup (keys (Attributes from)) ->
  AttributesToMap (Attributes (MergeResource to from false))
  = AttributesToMap (Attributes to) ∪ AttributesToMap (Attributes from).
Proof.
  intros Hto Hfrom. apply map_eq. intros k.
  rewrite lookup_union, !AttributesToMap_lookup.
  rewrite !GetLast_NoDup by (done || by apply MergeResource_NoDup).
  rewrite MergeResource_keep_Get.
  destruct (pcommon.Get (Attributes to) k) as [x|]; cbn.
  - by destruct (UnwrapAttribute <$> pcommon.Get (Attributes from) k).
  - by destruct (pcommon.Get (Attributes from) k).
Qed.

Lemma AttributesToMap_MergeResource_witness :
  AttributesToMap
    (Attributes
       (MergeResource (mkResource [("k", ValueStr "a")])
          (mkResource [("k", ValueStr "b"); ("j", ValueInt 1)]) false))
  = AttributesToMap [("k"%string, ValueStr "a")]
    ∪ AttributesToMap [("k"%string, ValueStr "b"); ("j"%string, ValueInt 1)].
Proof.
  apply (AttributesToMap_MergeResource
           (mkResource [("k"%string, ValueStr "a")])
           (mkResource [("k"%string, ValueStr "b");
                        ("j"%string, ValueInt 1)])).
  - apply NoDup_singleton.
  - apply NoDup_cons. split; [|apply NoDup_singleton].
    intros Hin. apply list_elem_of_singleton in Hin. discriminate.
Defined.

(** ** What a detection pass logs *)

Section LogFacts.

Context {World : Type} (Now : World -> Z) {Logger : Type}.

Lemma droppedKeys_eq (keep : gset string)
    (outs : list (Resource * string * option error)) :
  droppedKeys keep outs
  = if decide (keep = ∅) then []
    else filter (fun k => k ∉ keep)
           (keys (Attributes (mergeAll (successes outs)))).
Proof.
  unfold droppedKeys. rewrite filterAttributes_eq. case_decide; [done|].
  cbn [fst]. by rewrite (proj2 (RemoveIf_dropEntry keep _ nil_slice)).
Qed.

(** X23. The first [Get] on a provider made by [NewResourceProvider] adds
    to the log, in this order: the record that detection began, one warning
    with the error of each failed detector, the record with the plain form
    of the attributes it returns, and, only when the filter removed keys,
    a record listing the merged keys that are not in the set to keep. *)
Theorem Get_log (lg : Logger) (t : Z) (keep : gset string)
    (ds : list (@Detector World)) (ctx : context.Context)
    (client : http.Client) (env : @Env World Logger) :
  exists res url p1 env1,
    Get Now (NewResourceProvider lg t keep ds) ctx client env
    = (Some (res, url, None), p1, env1)
    /\ logs env1
       = logs env
         ++ [mkLogEntry lg zap.InfoLevel
               "began detecting resource information" []]
         ++ ((fun e => mkLogEntry lg zap.WarnLevel
                         "failed to detect resource" [zap.Error e])
               <$> failures
                     (detectAll
                        (context.WithTimeout (Now (world env)) ctx
                           (http.Timeout client)) ds (world env)).1)
         ++ [mkLogEntry lg zap.InfoLevel "detected resource information"
               [zap.Any "resource"
                  (IMap (AttributesToMap (Attributes res)))]]
         ++ match
              (if decide (keep = ∅) then []
               else filter (fun k => k ∉ keep)
                      (keys
                         (Attributes
                            (mergeAll
                               (successes
                                  (detectAll
                                     (context.WithTimeout (Now (world env))
                                        ctx (http.Timeout client))
                                     ds (world env)).1)))))
            with
            | [] => []
            | k :: dropped =>
                [mkLogEntry lg zap.InfoLevel "dropped resource information"
                   [zap.Strings "resource keys" (k :: dropped)]]
            end.
Proof.
  eexists _, _, _, _. split; [by apply Get_first|].
  cbn [logs logger detectors attributesToKeep NewResourceProvider].
  rewrite droppedKeys_eq. unfold detectionLog. do 4 f_equal.
  destruct (if decide (keep = ∅) then [] else _) as [|k dropped]; [done|].
  by rewrite bool_decide_eq_true_2 by (cbn; lia).
Qed.

End LogFacts.
